(** * xunit-autolabeler-v2: snippet/test correlation

    A shallow embedding of the Python sources

      - [ast_parser/python/test_parser.py]
      - [ast_parser/core/analyze.py]
      - [ast_parser/core/cli.py]

    together with the properties of the correlation engine that the
    specification states about them.

    Conventions of the embedding.
    - Python [str] is [string]; a list is [list]; a tuple is a product.
    - A Python [dict] that is only read by key, or built by
      "append under key", is a [gmap]; a Python [set] of strings is a
      [gset string].  The iteration order of a Python set is not
      specified by the language: wherever the source iterates over a set,
      the model takes the order from a function [set_iter] about which
      only "it enumerates the set" is assumed.
    - A function that can raise returns a [result]; exceptions are the
      constructors of [exn].
    - Python's own [os.path] functions are embedded for POSIX paths, after
      [posixpath.py]. *)

From Stdlib Require Import Ascii String.
From stdpp Require Import base option list sets gmap strings.

Set Default Proof Using "Type".

(** ** Exceptions and results *)

Inductive exn : Type :=
  | ValueError (msg : string)
  | IndexError
  | AttributeError
  | KeyError
  | SyntaxError.

Inductive result (A : Type) : Type :=
  | Ok (a : A)
  | Raise (e : exn).
Arguments Ok {A} a.
Arguments Raise {A} e.

#[global] Instance result_ret : MRet result := λ A a, Ok a.
#[global] Instance result_bind : MBind result := λ A B k r,
  match r with
  | Ok a => k a
  | Raise e => Raise e
  end.

Definition is_ok {A} (r : result A) : bool :=
  match r with Ok _ => true | Raise _ => false end.

(** [for x in xs: acc = step(acc, x)], where [step] may raise. *)
Fixpoint foldM {A B} (step : B → A → result B) (acc : B) (xs : list A)
  : result B :=
  match xs with
  | [] => Ok acc
  | x :: xs' => acc' ← step acc x; foldM step acc' xs'
  end.

(** [[f(x) for x in xs]], where [f] may raise. *)
Fixpoint mapM_result {A B} (f : A → result B) (xs : list A) : result (list B) :=
  match xs with
  | [] => Ok []
  | x :: xs' => y ← f x; ys ← mapM_result f xs'; Ok (y :: ys)
  end.

(** ** Python strings and POSIX paths *)

Module PyStr.

Definition sep : ascii := "/"%char.
Definition extsep : ascii := "."%char.

Definition chr (c : ascii) : string := String c EmptyString.

(** [needle in hay] on strings: substring test. *)
Fixpoint str_in (needle hay : string) : bool :=
  String.prefix needle hay ||
  match hay with
  | EmptyString => false
  | String _ hay' => str_in needle hay'
  end.

(** [c in s] for a one-character [c]. *)
Fixpoint has_chr (c : ascii) (s : string) : bool :=
  match s with
  | EmptyString => false
  | String a s' => Ascii.eqb a c || has_chr c s'
  end.

(** [s.startswith(p)] *)
Definition startswith (s p : string) : bool := String.prefix p s.

(** [s.endswith(c)] for a one-character [c]. *)
Fixpoint endswith_chr (s : string) (c : ascii) : bool :=
  match s with
  | EmptyString => false
  | String a EmptyString => Ascii.eqb a c
  | String _ s' => endswith_chr s' c
  end.

(** [sep.join(ls)] *)
Definition join (sp : string) (ls : list string) : string :=
  String.concat sp ls.

(** [s.split(c)] for a one-character separator; never the empty list. *)
Fixpoint split (c : ascii) (s : string) : list string :=
  match s with
  | EmptyString => [EmptyString]
  | String a s' =>
      if Ascii.eqb a c then EmptyString :: split c s'
      else match split c s' with
           | x :: xs => String a x :: xs
           | [] => [chr a]
           end
  end.

(** [(s[:i], s[i:])] with [i = s.rfind(c) + 1]. *)
Fixpoint rpartition (c : ascii) (s : string) : string * string :=
  match s with
  | EmptyString => (EmptyString, EmptyString)
  | String a s' =>
      match rpartition c s' with
      | (EmptyString, t) =>
          if Ascii.eqb a c then (chr a, t) else (EmptyString, String a t)
      | (h, t) => (String a h, t)
      end
  end.

(** [s == c * len(s)] *)
Fixpoint all_chr (c : ascii) (s : string) : bool :=
  match s with
  | EmptyString => true
  | String a s' => Ascii.eqb a c && all_chr c s'
  end.

(** [s.rstrip(c)] for a one-character [c]. *)
Fixpoint rstrip (c : ascii) (s : string) : string :=
  match s with
  | EmptyString => EmptyString
  | String a s' =>
      match rstrip c s' with
      | EmptyString => if Ascii.eqb a c then EmptyString else chr a
      | r => String a r
      end
  end.

Definition nonempty (s : string) : bool :=
  match s with EmptyString => false | _ => true end.

(** [posixpath.dirname]:
    [i = p.rfind('/') + 1; head = p[:i];
     if head and head != '/'*len(head): head = head.rstrip('/')]. *)
Definition dirname (p : string) : string :=
  let head := (rpartition sep p).1 in
  if nonempty head && negb (all_chr sep head) then rstrip sep head
  else head.

(** [posixpath.basename]: [p[p.rfind('/') + 1:]]. *)
Definition basename (p : string) : string := (rpartition sep p).2.

Definition isabs (p : string) : bool := startswith p (chr sep).

(** [posixpath.join(a, b)] *)
Definition path_join (a b : string) : string :=
  if startswith b (chr sep) then b
  else if negb (nonempty a) || endswith_chr a sep then (a +:+ b)
  else (a +:+ chr sep +:+ b).

(** One round of the component loop of [posixpath.normpath]. *)
Definition normpath_step (initial_slashes : nat)
    (new_comps : list string) (comp : string) : list string :=
  if String.eqb comp "" || String.eqb comp "." then new_comps
  else if negb (String.eqb comp "..")
       || (Nat.eqb initial_slashes 0 && bool_decide (new_comps = []))
       || match last new_comps with
          | Some c => String.eqb c ".."
          | None => false
          end
  then new_comps ++ [comp]
  else removelast new_comps.

(** [posixpath.normpath] *)
Definition normpath (path : string) : string :=
  if negb (nonempty path) then "."
  else
    let initial_slashes :=
      if startswith path "/" then
        if startswith path "//" && negb (startswith path "///")
        then 2 else 1
      else 0 in
    let comps := fold_left (normpath_step initial_slashes) (split sep path) [] in
    let path' := join "/" comps in
    let path'' :=
      match initial_slashes with
      | 0 => path'
      | 1 => "/" +:+ path'
      | _ => "//" +:+ path'
      end in
    if nonempty path'' then path'' else ".".

(** [os.path.abspath], with the process's working directory [cwd]
    ([os.getcwd()]) made explicit. *)
Definition abspath (cwd path : string) : string :=
  normpath (if isabs path then path else path_join cwd path).

(** [genericpath._splitext(p, '/', None, '.')]: the extension starts
    at the last dot of the last path component, unless that component
    consists of dots only up to there. *)
Definition splitext (p : string) : string * string :=
  let '(dir, file) := rpartition sep p in
  match rpartition extsep file with
  | (EmptyString, _) => (p, EmptyString)
  | (root_dot, ext) =>
      let root := String.substring 0 (String.length root_dot - 1) root_dot in
      if all_chr extsep root then (p, EmptyString)
      else (dir +:+ root, String extsep ext)
  end.

End PyStr.


(** ** [ast_parser/python/test_parser.py] *)

Module TestParser.

(** *** Data *)

(** A test key, the join key between snippets and tests: a 2-tuple whose
    components are strings or [None]. *)
Abbreviation test_key := (option string * option string)%type.

(** An entry of the test-key map: [(test_path, test_name)]. *)
Abbreviation test_entry := (string * string)%type.

(** The [drift] record of a snippet method (a named tuple in the source;
    its attributes are those of the specification's SnippetFunction). *)
Record DriftData : Type := mkDriftData {
  name : string;
  source_path : string;
  start_line : nat;
  end_line : nat;
  parser : string;
  url : option string;
  http_methods : list string;
  class_name : option string;
  method_name : option string;
  region_tags : list string;
  test_methods : list test_entry
}.

(** [drift._replace(test_methods=v)] *)
Definition replace_test_methods (d : DriftData) (v : list test_entry)
  : DriftData :=
  {| name := name d; source_path := source_path d;
     start_line := start_line d; end_line := end_line d;
     parser := parser d; url := url d; http_methods := http_methods d;
     class_name := class_name d; method_name := method_name d;
     region_tags := region_tags d; test_methods := v |}.

(** *** Syntax trees of test files

    The nodes of Python's [ast] module, as far as the parser tells them
    apart.  It inspects a node only through [str(type(node))] and the
    attributes [name], [body], [value], [id], [attr], [func], [args], [s],
    [test], [comparators] and [left]; one constructor stands for every
    node class that agrees on these.

    - [Subscript] stands for every class whose only inspected attribute is
      [value]: [Subscript], [Starred], [Await], and the statements [Expr]
      (an expression statement), [Assign], [Return], ...
    - [Assert] stands for every class carrying [test]: [Assert], [If],
      [While], [IfExp].
    - [Compare]: Python's grammar gives a comparison at least one
      comparator, so [comparators[0]] is a field of its own.
    - [Str] is a string literal (attribute [s]).
    - [Other] is a node with none of the inspected attributes. *)
Inductive ast : Type :=
  | Name (id : string)
  | Attribute (value : ast) (attr : string)
  | Subscript (value : ast)
  | Call (func : ast) (args : list ast)
  | Str (s : string)
  | Compare (left : ast) (comparator0 : ast) (comparators : list ast)
  | Assert (test : ast)
  | With (body : list ast)
  | For (body : list ast)
  | FunctionDef (name : string) (body : list ast)
  | ClassDef (name : string) (body : list ast)
  | Other.

(** [node.name], when [hasattr(node, 'name')]. *)
Definition node_name (node : ast) : option string :=
  match node with
  | FunctionDef name _ | ClassDef name _ => Some name
  | _ => None
  end.

(** [node.body] *)
Definition node_body (node : ast) : result (list ast) :=
  match node with
  | With body | For body | FunctionDef _ body | ClassDef _ body => Ok body
  | _ => Raise AttributeError
  end.

(** [node.value], when [hasattr(node, 'value')]. *)
Definition node_value (node : ast) : option ast :=
  match node with
  | Attribute value _ | Subscript value => Some value
  | _ => None
  end.

(** [node.id], when [hasattr(node, 'id')]. *)
Definition node_id (node : ast) : option string :=
  match node with
  | Name id => Some id
  | _ => None
  end.

(** [node.attr]: only an [Attribute] node has it. *)
Definition node_attr (node : ast) : result string :=
  match node with
  | Attribute _ attr => Ok attr
  | _ => Raise AttributeError
  end.

(** A test node as [get_test_methods] returns it: the syntax node with the
    attribute [test_path] the function sets on it. *)
Record test_node : Type := mk_test_node {
  node : ast;
  test_path : string
}.

(** *** [_get_test_nodes] *)

Definition is_test_node (node : ast) : bool :=
  match node_name node with
  | Some name => PyStr.startswith name "test_"
  | None => false
  end.

Definition _get_test_nodes (parsed_nodes : list ast) : list ast :=
  let possible_test_nodes :=
    flat_map (λ node,
                node :: match node with
                        | ClassDef _ body => body
                        | _ => []
                        end)
             parsed_nodes in
  List.filter is_test_node possible_test_nodes.

(** *** [get_test_methods] *)

(** The name of a node that passed [is_test_node]. *)
Definition test_name (node : ast) : string := default "" (node_name node).

(** The message of the [ValueError] for a test name that is not unique. *)
Definition not_unique_msg (test_path name : string) : string :=
  "Test name " +:+ name +:+ " in file " +:+ test_path +:+ " must be unique.".

(** The two writes to [sys.stderr] for a file that cannot be read. *)
Definition unreadable_diagnostic (test_path err : string) : list string :=
  ["WARNING: could not read file: " +:+ test_path +:+ PyStr.chr "010";
   PyStr.chr "009" +:+ err +:+ PyStr.chr "010"].

(** The loop that verifies that no test name occurs twice;
    [used_test_names] is the set of the names seen so far. *)
Definition check_unique (test_path : string)
    (used_test_names : gset string) (node : ast) : result (gset string) :=
  if bool_decide (test_name node ∈ used_test_names) then
    Raise (ValueError (not_unique_msg test_path (test_name node)))
  else Ok ({[test_name node]} ∪ used_test_names).

Section files.

(** [open(path, 'r').readlines()]: the lines of the file, or the message
    of the [IOError] that reading it raises. *)
Variable readlines : string → string + list string.

(** [list(ast.iter_child_nodes(ast.parse(content)))]: the top-level nodes
    of the module, or [SyntaxError]. *)
Variable ast_parse : string → result (list ast).

(** The function returns what it wrote to [sys.stderr] together with its
    outcome. *)
Definition get_test_methods (test_path : string)
  : list string * result (list test_node) :=
  match readlines test_path with
  | inr lines =>
      let content := PyStr.join "" lines in
      ([],
       parsed_nodes ← ast_parse content;
       let test_nodes := _get_test_nodes parsed_nodes in
       _ ← foldM (check_unique test_path) ∅ test_nodes;
       Ok (map (λ node, mk_test_node node test_path) test_nodes))
  | inl err =>
      (unreadable_diagnostic test_path err, Ok [])
  end.

End files.

(** *** [get_test_key_to_snippet_map] *)

Module drift_test.

(** The named tuple [drift_test.DriftTest]; a field left out in the
    constructor call is [None].  A named tuple with fields is truthy. *)
Record DriftTest : Type := mkDriftTest {
  class_name : option string;
  method_name : option string;
  url : option string;
  http_method : option string
}.

End drift_test.

Section resolver.

(** [constants.HTTP_CLASS_NAMES] and [constants.HTTP_METHOD_NAMES]: the
    identifiers of HTTP test clients and the names of HTTP methods. *)
Variable HTTP_CLASS_NAMES : list string.
Variable HTTP_METHOD_NAMES : list string.

(** [DriftTest.get_key_tuple] *)
Variable get_key_tuple : drift_test.DriftTest → result test_key.

(** The branch "HTTP-route invoked methods" of [__recursor__]:
    [Ok (Some t)] when it returns [[t]], [Ok None] when control falls
    through to the next [if]. *)
Definition http_route (expr : ast)
  : result (option drift_test.DriftTest) :=
  match expr with
  | Call func args =>
      match node_value func with
      | Some receiver =>
          match node_id receiver with
          | Some id =>
              if bool_decide (id ∈ HTTP_CLASS_NAMES) then
                verb ← node_attr func;
                if bool_decide (verb ∈ HTTP_METHOD_NAMES) then
                  match args with
                  | [] => Raise IndexError
                  | Str s :: _ =>
                      Ok (Some (drift_test.mkDriftTest
                                  None None (Some s) (Some verb)))
                  | _ :: _ => Ok None
                  end
                else Ok None
              else Ok None
          | None => Ok None
          end
      | None => Ok None
      end
  | _ => Ok None
  end.

Fixpoint __recursor__ (expr : ast) : result (list drift_test.DriftTest) :=
  match expr with
  | Attribute (Name id) attr =>
      Ok [drift_test.mkDriftTest (Some id) (Some attr) None None]
  | _ =>
      match http_route expr with
      | Raise e => Raise e
      | Ok (Some t) => Ok [t]
      | Ok None =>
          match expr with
          | Attribute value _ | Subscript value => __recursor__ value
          | Call func _ => __recursor__ func
          | Assert (Compare left_ comparator0 _) =>
              match __recursor__ comparator0 with
              | Raise e => Raise e
              | Ok results0 =>
                  match __recursor__ left_ with
                  | Raise e => Raise e
                  | Ok results1 => Ok (results0 ++ results1)
                  end
              end
          | With body | For body =>
              (fix over_body (body : list ast) (results : list drift_test.DriftTest) :=
                 match body with
                 | [] => Ok results
                 | subexpr :: body' =>
                     match __recursor__ subexpr with
                     | Raise e => Raise e
                     | Ok found => over_body body' (results ++ found)
                     end
                 end) body []
          | _ => Ok []
          end
      end
  end.

(** [test_to_method_key_map[child_key].append((method.test_path, method.name))],
    creating the entry when the key is new. *)
Definition append_entry (m : gmap test_key (list test_entry))
    (child_key : test_key) (entry : test_entry)
  : gmap test_key (list test_entry) :=
  <[child_key := default [] (m !! child_key) ++ [entry]]> m.

Definition map_subexpr (method : test_node)
    (m : gmap test_key (list test_entry)) (subexpr : ast)
  : result (gmap test_key (list test_entry)) :=
  children_drift_data ← __recursor__ subexpr;
  foldM (λ m child_drift_test,
           child_key ← get_key_tuple child_drift_test;
           Ok (append_entry m child_key
                 (test_path method, test_name (node method))))
        m children_drift_data.

Definition get_test_key_to_snippet_map (test_methods : list test_node)
  : result (gmap test_key (list test_entry)) :=
  foldM (λ m method,
           body ← node_body (node method);
           foldM (map_subexpr method) m body)
        ∅ test_methods.

(** *** The resolver's precondition *)

(** Every node of a syntax tree, the tree itself first. *)
Fixpoint subterms (expr : ast) : list ast :=
  expr ::
  match expr with
  | Attribute value _ | Subscript value => subterms value
  | Assert test => subterms test
  | Call func args => subterms func ++ flat_map subterms args
  | Compare left_ comparator0 comparators =>
      subterms left_ ++ subterms comparator0 ++ flat_map subterms comparators
  | With body | For body | FunctionDef _ body | ClassDef _ body =>
      flat_map subterms body
  | Name _ | Str _ | Other => []
  end.

(** "A call expression whose callee has the shape [receiver.verb], with
    the receiver's identifier among the known HTTP client names and the
    verb among the known HTTP method names", with its arguments. *)
Definition http_client_call (expr : ast) (args : list ast) : Prop :=
  ∃ receiver verb,
    expr = Call (Attribute (Name receiver) verb) args
    ∧ receiver ∈ HTTP_CLASS_NAMES ∧ verb ∈ HTTP_METHOD_NAMES.

(** "Every such call expression has at least one argument." *)
Definition http_calls_have_args (expr : ast) : Prop :=
  ∀ e args, e ∈ subterms expr → http_client_call e args → args ≠ [].

(** No call has a callee that carries [value] without being an attribute
    access, such as a subscript, on a known HTTP client name: for such a
    callee [func.attr] does not exist. *)
Definition callees_have_attr (expr : ast) : Prop :=
  ∀ e receiver args,
    e ∈ subterms expr → e = Call (Subscript (Name receiver)) args →
    receiver ∉ HTTP_CLASS_NAMES.

(** Both parts of the precondition, for the whole tree. *)
Definition safe (expr : ast) : Prop :=
  http_calls_have_args expr ∧ callees_have_attr expr.

End resolver.

(** *** [store_tests_on_methods] *)

Section store.

(** [os.getcwd()], read by [os.path.abspath]. *)
Variable cwd : string.

(** The [if]/[elif] chain computing [keys]. *)
Definition lookup_keys (drift : DriftData) : result (list test_key) :=
  if String.eqb (parser drift) "direct_invocation" then
    Ok [(class_name drift, method_name drift)]
  else if String.eqb (parser drift) "webapp2_router" then
    match http_methods drift with
    | first :: _ => Ok [(Some first, url drift)]
    | [] => Raise IndexError
    end
  else if String.eqb (parser drift) "flask_router" then
    Ok (map (λ http_method, (Some http_method, url drift))
            (http_methods drift))
  else Ok [].

Definition invalid_map_msg : string :=
  "Invalid test-method map: source filepaths within a map entry must be identical!".

(** The body of [for key in keys], as a function of the list
    [new_test_methods] built so far. *)
Definition store_key (source_root : string)
    (test_to_method_key_map : gmap test_key (list test_entry))
    (new_test_methods : list test_entry) (key : test_key)
  : result (list test_entry) :=
  match test_to_method_key_map !! key with
  | None => Ok new_test_methods
  | Some [] => Ok new_test_methods
  | Some entries =>
      let source_paths : gset string := list_to_set (entries.*1) in
      if bool_decide (size source_paths ≠ 1) then
        Raise (ValueError invalid_map_msg)
      else
        match elements source_paths with
        | [] => Raise IndexError
        | path0 :: _ =>
            if PyStr.str_in source_root (PyStr.abspath cwd path0)
            then Ok (new_test_methods ++ entries)
            else Ok new_test_methods
        end
  end.

(** The body of [for method in source_methods]; the method object is
    represented by its [drift] attribute, the only one the loop
    reads or writes. *)
Definition store_tests_on_method
    (test_to_method_key_map : gmap test_key (list test_entry))
    (drift : DriftData) : result DriftData :=
  let source_root := PyStr.dirname (source_path drift) in
  keys ← lookup_keys drift;
  new_test_methods ←
    foldM (store_key source_root test_to_method_key_map)
          (test_methods drift) keys;
  Ok (replace_test_methods drift new_test_methods).

Definition store_tests_on_methods (source_methods : list DriftData)
    (test_to_method_key_map : gmap test_key (list test_entry))
  : result (list DriftData) :=
  mapM_result (store_tests_on_method test_to_method_key_map) source_methods.

End store.

(** *** What the correlation appends *)

(** An entry that one of the [keys] contributes and whose absolute path
    contains the source root as a substring. *)
Definition accepted_entry (cwd : string)
    (test_to_method_key_map : gmap test_key (list test_entry))
    (source_root : string) (keys : list test_key) (e : test_entry) : Prop :=
  (∃ key entries, key ∈ keys ∧ test_to_method_key_map !! key = Some entries
                  ∧ e ∈ entries)
  ∧ PyStr.str_in source_root (PyStr.abspath cwd e.1) = true.

(** *** The specification's wording, for comparison *)

Definition path_components (p : string) : list string :=
  List.filter PyStr.nonempty (PyStr.split "/" p).

(** "[path] lies under the directory [root_dir]": the components of the
    directory are the leading components of the path, both taken
    absolute. *)
Definition lies_under (cwd root_dir path : string) : bool :=
  bool_decide (path_components (PyStr.abspath cwd root_dir)
                 `prefix_of` path_components (PyStr.abspath cwd path)).

(** "The extracted test nodes contain two nodes with the same name." *)
Definition same_name_twice (test_nodes : list ast) : Prop :=
  ∃ i j node1 node2,
    i < j ∧ test_nodes !! i = Some node1 ∧ test_nodes !! j = Some node2
    ∧ test_name node1 = test_name node2.

(** "The entries carry more than one distinct test source path." *)
Definition several_source_paths (entries : list test_entry) : Prop :=
  ∃ e1 e2, e1 ∈ entries ∧ e2 ∈ entries ∧ e1.1 ≠ e2.1.

(** "Every field of the drift record other than [test_methods] is
    unchanged." *)
Definition same_but_test_methods (d d' : DriftData) : Prop :=
  name d' = name d ∧ source_path d' = source_path d ∧
  start_line d' = start_line d ∧ end_line d' = end_line d ∧
  parser d' = parser d ∧ url d' = url d ∧
  http_methods d' = http_methods d ∧ class_name d' = class_name d ∧
  method_name d' = method_name d ∧ region_tags d' = region_tags d.

End TestParser.

(** ** [ast_parser/core/analyze.py] *)

Module Analyze.

(** An entry of the input artifact (a JSON object): the keys
    [analyze_json] and the report layer read. *)
Record method : Type := mk_method {
  name : string;
  source_path : string;
  region_tags : list string;
  test_methods : list (string * string)
}.

(** A region-tag region as [get_region_tag_regions] returns it: a tuple
    whose component 0 is the tag name, followed by the first and the last
    line. *)
Abbreviation region := (string * nat * nat)%type.

(** [t[0]] *)
Definition region_tag_name (t : region) : string := t.1.1.

(** [','.join(m['region_tags'])] *)
Definition dedupe_key (m : method) : string :=
  PyStr.join "," (region_tags m).

(** One round of the loop "Dedupe source methods": the state is
    [(source_method_keys, source_methods_deduped)]. *)
Definition dedupe_step (st : gset string * list method) (m : method)
  : gset string * list method :=
  let key := dedupe_key m in
  if bool_decide (key ∈ st.1) then st
  else ({[key]} ∪ st.1, st.2 ++ [m]).

Definition dedupe (source_methods : list method) : list method :=
  (fold_left dedupe_step source_methods (∅, [])).2.

(** What the deduplication loop maintains: after the methods [seen], the
    key set holds their keys, and the output holds, for every key, the
    first of them that carries it, in the order of the input. *)
Definition dedupe_inv (seen : list method) (st : gset string * list method)
  : Prop :=
  (∀ key, key ∈ st.1 ↔ key ∈ dedupe_key <$> seen)
  ∧ (∀ key, filter (λ m, dedupe_key m = key) st.2 =
            take 1 (filter (λ m, dedupe_key m = key) seen))
  ∧ st.2 `sublist_of` seen.

(** The methods of [json_methods] whose source path is [source_file] are
    the objects handed to [add_region_tags_to_methods], which updates them
    in place: [updated] holds their new states, in order. *)
Fixpoint write_back (source_file : string)
    (json_methods updated : list method) : list method :=
  match json_methods with
  | [] => []
  | m :: ms =>
      if String.eqb (source_path m) source_file then
        match updated with
        | m' :: updated' => m' :: write_back source_file ms updated'
        | [] => m :: write_back source_file ms []
        end
      else m :: write_back source_file ms updated
  end.

Section analyze.

(** The order in which a [for] loop, a comprehension or [list()] goes
    through a Python set. *)
Variable set_iter : gset string → list string.

(** The collaborators in [polyglot_parser] and [yaml_utils].  A function
    that updates the method objects it is given returns their new
    states. *)
Variable get_region_tag_regions : string → list region * list string.
Variable add_region_tags_to_methods : list method → list region → list method.
Variable add_children_drift_data : list method → list method.
Variable add_yaml_data_to_source_methods : list method → string → list method.
Variable get_untested_region_tags : string → list string.

(** The body of [for source_file in source_filepaths]; the state is
    [(json_methods, grep_tags, ignored_tags)]. *)
Definition scan_source_file
    (st : list method * gset string * gset string) (source_file : string)
  : list method * gset string * gset string :=
  let '(json_methods, grep_tags, ignored_tags) := st in
  let '(region_tags, ignored_tag_names) :=
    get_region_tag_regions source_file in
  let grep_tags := grep_tags ∪ list_to_set (region_tag_name <$> region_tags) in
  let ignored_tags := ignored_tags ∪ list_to_set ignored_tag_names in
  let file_methods :=
    List.filter (λ m, String.eqb (source_path m) source_file) json_methods in
  (write_back source_file json_methods
     (add_region_tags_to_methods file_methods region_tags),
   grep_tags, ignored_tags).

Definition has_region_tags (m : method) : bool :=
  match region_tags m with [] => false | _ => true end.

(** [analyze_json], from the parsed content of [repo_json] on: reading the
    file and [json.loads] come before, and a failure there ends the run.
    The step "convert test_methods values to tuples" leaves the pairs of
    the model as they are. *)
Definition analyze_json (json_methods : list method) (root_dir : string)
  : list string * list string * list string * list method :=
  let source_filepaths : gset string :=
    list_to_set (source_path <$> json_methods) in
  let '(json_methods, grep_tags, ignored_tags) :=
    fold_left scan_source_file (set_iter source_filepaths)
              (json_methods, ∅, ∅) in
  let source_methods := List.filter has_region_tags json_methods in
  let source_methods := dedupe source_methods in
  let source_methods := add_children_drift_data source_methods in
  let source_methods :=
    add_yaml_data_to_source_methods source_methods root_dir in
  let source_tags : gset string :=
    fold_left (λ source_tags m, source_tags ∪ list_to_set (region_tags m))
              source_methods ∅ in
  let grep_tags :=
    List.filter (λ x, bool_decide (x ∉ ignored_tags)) (set_iter grep_tags) in
  let source_tags :=
    List.filter (λ x, bool_decide (x ∉ ignored_tags)) (set_iter source_tags) in
  let ignored_tags :=
    ignored_tags ∪ list_to_set (get_untested_region_tags root_dir) in
  (grep_tags, source_tags, set_iter ignored_tags, source_methods).

End analyze.

End Analyze.

(** ** [ast_parser/core/cli.py] *)

Module Cli.

(** A [testcase] element of the XUnit report, as its attribute
    dictionary [elem.attrib]. *)
Abbreviation element := (gmap string string).

(** [d[key]] on a dictionary. *)
Definition getitem (d : element) (key : string) : result string :=
  match d !! key with
  | Some v => Ok v
  | None => Raise KeyError
  end.

(** The list comprehension [method_test_keys]. *)
Definition method_test_keys (m : Analyze.method) : list (string * string) :=
  map (λ test, ((PyStr.splitext (PyStr.basename test.1)).1, test.2))
      (Analyze.test_methods m).

(** [existing_tag_str.split(',') if existing_tag_str else []] *)
Definition existing_tag_list (existing_tag_str : option string)
  : list string :=
  match existing_tag_str with
  | Some s => if PyStr.nonempty s then PyStr.split "," s else []
  | None => []
  end.

(** [test_key = (class_parts[-1], elem.attrib['name'])] *)
Definition elem_test_key (elem : element) : result (string * string) :=
  classname ← getitem elem "classname";
  let class_parts :=
    List.filter (λ part, negb (PyStr.startswith part "Test"))
                (PyStr.split "." classname) in
  class_name ← match last class_parts with
               | Some part => Ok part
               | None => Raise IndexError
               end;
  test_name ← getitem elem "name";
  Ok (class_name, test_name).

(** A region tag, as a name: not empty, and without a comma. *)
Definition tag_name (t : string) : Prop :=
  t ≠ "" ∧ PyStr.has_chr "," t = false.

Section inject.

Variable set_iter : gset string → list string.

(** The new value of the [region_tags] attribute. *)
Definition injected_region_tags (existing_tag_str : option string)
    (region_tags : list string) : string :=
  let deduped_tag_list : gset string :=
    list_to_set (existing_tag_list existing_tag_str ++ region_tags) in
  PyStr.join "," (set_iter deduped_tag_list).

(** The body of [for method in source_methods]. *)
Definition inject_method (test_key : string * string)
    (elem : element) (m : Analyze.method) : element :=
  if bool_decide (test_key ∈ method_test_keys m) then
    <["region_tags" :=
        injected_region_tags (elem !! "region_tags") (Analyze.region_tags m)]>
      elem
  else elem.

(** The body of [for elem in xunit_tree.findall('.//testcase')]. *)
Definition inject_elem (source_methods : list Analyze.method)
    (elem : element) : result element :=
  test_key ← elem_test_key elem;
  Ok (fold_left (inject_method test_key) source_methods elem).

(** [inject_snippet_mapping], from the result of [analyze_json] and the
    [testcase] elements of the parsed report to the elements of the
    report it writes. *)
Definition inject_snippet_mapping
    (analysis : list string * list string * list string * list Analyze.method)
    (testcases : list element) : result (list element) :=
  let '(_, _, _, source_methods) := analysis in
  mapM_result (inject_elem source_methods) testcases.

End inject.

End Cli.

(** ** Sample data *)

Module Samples.

Definition hello_get : TestParser.DriftData :=
  TestParser.mkDriftData "hello_get" "/srv/app/main.py" 10 14
    "direct_invocation" None [] (Some "main") (Some "hello_get")
    ["functions_helloworld_get"] [].

Definition sign_post : TestParser.DriftData :=
  TestParser.mkDriftData "post" "/srv/app/guestbook.py" 20 30
    "webapp2_router" (Some "/sign") ["post"] None None ["sign_handler"] [].

Definition root_route : TestParser.DriftData :=
  TestParser.mkDriftData "index" "/srv/app/flask_main.py" 5 8
    "flask_router" (Some "/") ["GET"; "HEAD"; "OPTIONS"] None None
    ["sample_route"] [].

(** A snippet whose source path has no directory part. *)
Definition hello_local : TestParser.DriftData :=
  TestParser.mkDriftData "hello_get" "main.py" 10 14
    "direct_invocation" None [] (Some "main") (Some "hello_get")
    ["functions_helloworld_get"] [].

Definition hello_key : TestParser.test_key := (Some "main", Some "hello_get").

(** A key map whose test lives beside the snippet. *)
Definition map_beside : gmap TestParser.test_key (list TestParser.test_entry) :=
  {[ hello_key := [("/srv/app/main_test.py", "test_hello_get")] ]}.

(** A key map whose test lives in another tree, the name of which ends
    like the snippet's directory. *)
Definition map_elsewhere : gmap TestParser.test_key (list TestParser.test_entry) :=
  {[ hello_key := [("/tmp/srv/app/main_test.py", "test_hello_get")] ]}.

(** A key map with one key recorded from two test files. *)
Definition map_collision : gmap TestParser.test_key (list TestParser.test_entry) :=
  {[ hello_key := [("/srv/app/main_test.py", "test_hello_get");
                   ("/srv/other/main_test.py", "test_hello_get")] ]}.

(** Sample values of [constants.HTTP_CLASS_NAMES] and
    [constants.HTTP_METHOD_NAMES]. *)
Definition http_class_names : list string := ["app"; "client"].
Definition http_method_names : list string :=
  ["get"; "post"; "put"; "patch"; "delete"].

(** A sample [DriftTest.get_key_tuple]: the pair of the fields that are
    set, [(class_name, method_name)] or [(http_method, url)]. *)
Definition key_tuple (t : TestParser.drift_test.DriftTest)
  : result TestParser.test_key :=
  match TestParser.drift_test.class_name t,
        TestParser.drift_test.method_name t with
  | Some c, Some m => Ok (Some c, Some m)
  | _, _ =>
      match TestParser.drift_test.url t,
            TestParser.drift_test.http_method t with
      | Some u, Some h => Ok (Some h, Some u)
      | _, _ => Raise (ValueError "Invalid DriftTest")
      end
  end.

(** The statement [client.get()]. *)
Definition stmt_get_no_args : TestParser.ast :=
  TestParser.Subscript
    (TestParser.Call
       (TestParser.Attribute (TestParser.Name "client") "get") []).

(** The statement [helper(client.get())]. *)
Definition stmt_nested_get : TestParser.ast :=
  TestParser.Subscript
    (TestParser.Call (TestParser.Name "helper")
       [TestParser.Call
          (TestParser.Attribute (TestParser.Name "client") "get") []]).

(** The statement [client[0]('/sign')]. *)
Definition stmt_subscript_call : TestParser.ast :=
  TestParser.Subscript
    (TestParser.Call (TestParser.Subscript (TestParser.Name "client"))
       [TestParser.Str "/sign"]).

(** The statement [assert client.post('/sign').status == 200]. *)
Definition stmt_assert_post : TestParser.ast :=
  TestParser.Assert
    (TestParser.Compare
       (TestParser.Attribute
          (TestParser.Call
             (TestParser.Attribute (TestParser.Name "client") "post")
             [TestParser.Str "/sign"])
          "status")
       TestParser.Other []).

(** Two files of tests, and a path that cannot be read. *)
Definition nl : string := PyStr.chr "010".

Definition readlines (path : string) : string + list string :=
  if String.eqb path "main_test.py" then
    inr ["def test_hello_get(): main.hello_get()" +:+ nl;
         "def test_sign(): assert client.post('/sign').status == 200" +:+ nl]
  else if String.eqb path "twice_test.py" then
    inr ["def test_hello_get(): main.hello_get()" +:+ nl;
         "def test_hello_get(): main.hello_get()" +:+ nl]
  else inl ("[Errno 2] No such file or directory: " +:+ path).

Definition test_hello_get : TestParser.ast :=
  TestParser.FunctionDef "test_hello_get"
    [TestParser.Subscript
       (TestParser.Call
          (TestParser.Attribute (TestParser.Name "main") "hello_get") [])].

Definition test_sign : TestParser.ast :=
  TestParser.FunctionDef "test_sign" [stmt_assert_post].

Definition ast_parse (content : string) : result (list TestParser.ast) :=
  if String.eqb content (PyStr.join "" ["def test_hello_get(): main.hello_get()" +:+ nl;
         "def test_sign(): assert client.post('/sign').status == 200" +:+ nl])
  then Ok [test_hello_get; test_sign]
  else if String.eqb content (PyStr.join "" ["def test_hello_get(): main.hello_get()" +:+ nl;
         "def test_hello_get(): main.hello_get()" +:+ nl])
  then Ok [test_hello_get; test_hello_get]
  else Raise SyntaxError.

(** Sample collaborators of [analyze_json]: every source file holds one
    region, tagged [sample_tag], and no ignore marker; the tagging gives
    every method of the file the tags of the file's regions; the YAML
    configuration lists [sample_tag] as untested. *)
Definition sample_method : Analyze.method :=
  Analyze.mk_method "index" "main.py" [] [("main_test.py", "test_index")].

Definition get_region_tag_regions (source_file : string)
  : list Analyze.region * list string :=
  ([("sample_tag", 3, 9)], []).

Definition add_region_tags_to_methods (methods : list Analyze.method)
    (regions : list Analyze.region) : list Analyze.method :=
  map (λ m, Analyze.mk_method (Analyze.name m) (Analyze.source_path m)
              (Analyze.region_tag_name <$> regions) (Analyze.test_methods m))
      methods.

Definition get_untested_region_tags (root_dir : string) : list string :=
  ["sample_tag"].

(** The same source file with an ignore marker for [sample_tag]. *)
Definition get_region_tag_regions_marked (source_file : string)
  : list Analyze.region * list string :=
  ([("sample_tag", 3, 9)], ["sample_tag"]).

(** A [testcase] element of a report and two snippets its test covers. *)
Definition testcase : gmap string string :=
  {[ "classname" := "tests.TestGuestbook.main_test";
     "name" := "test_index";
     "region_tags" := "sample_tag" ]}.

Definition index_method : Analyze.method :=
  Analyze.mk_method "index" "main.py" ["sample_tag"; "root_tag"]
    [("/srv/app/main_test.py", "test_index")].

Definition sign_method : Analyze.method :=
  Analyze.mk_method "sign" "main.py" ["sign_handler"]
    [("/srv/app/main_test.py", "test_index")].

(** A snippet whose one region tag contains a comma. *)
Definition comma_method : Analyze.method :=
  Analyze.mk_method "odd" "main.py" ["a,b"]
    [("/srv/app/main_test.py", "test_index")].

End Samples.

(** * Properties *)

(** ** Loops that may raise *)

Section loops.

Context {A B : Type}.

Lemma mapM_result_Forall2 (f : A → result B) xs ys :
  mapM_result f xs = Ok ys → Forall2 (λ x y, f x = Ok y) xs ys.
Proof.
  revert ys. induction xs as [|x xs IH]; intros ys; simpl.
  - intros [= <-]. constructor.
  - destruct (f x) as [y|e] eqn:Hx; simpl; [|discriminate].
    destruct (mapM_result f xs) as [ys'|e] eqn:Hxs; simpl; [|discriminate].
    intros [= <-]. constructor; auto.
Qed.

Lemma mapM_result_raise (f : A → result B) xs e :
  mapM_result f xs = Raise e → ∃ x, x ∈ xs ∧ f x = Raise e.
Proof.
  induction xs as [|x xs IH]; simpl; [discriminate|].
  destruct (f x) as [y|e'] eqn:Hx; simpl.
  - destruct (mapM_result f xs) as [ys'|e'] eqn:Hxs; simpl; [discriminate|].
    intros [= ->]. destruct IH as (x' & Hin & Hx'); [done|].
    exists x'. split; [by apply list_elem_of_further|done].
  - intros [= ->]. exists x. split; [apply list_elem_of_here|done].
Qed.

Lemma mapM_result_not_ok (f : A → result B) xs x :
  x ∈ xs → is_ok (f x) = false → is_ok (mapM_result f xs) = false.
Proof.
  intros Hin Hx. induction Hin as [x xs|x x' xs Hin IH]; simpl.
  - destruct (f x); [discriminate|done].
  - destruct (f x'); simpl; [|done].
    specialize (IH Hx). destruct (mapM_result f xs); [discriminate|done].
Qed.

Lemma foldM_cons (step : B → A → result B) x xs acc :
  foldM step acc (x :: xs) =
  match step acc x with
  | Ok acc' => foldM step acc' xs
  | Raise e => Raise e
  end.
Proof. done. Qed.

(** An invariant of the accumulator is kept by a loop that completes. *)
Lemma foldM_invariant (P : B → Prop) (step : B → A → result B) xs acc acc' :
  (∀ b x b', x ∈ xs → P b → step b x = Ok b' → P b') →
  P acc → foldM step acc xs = Ok acc' → P acc'.
Proof.
  revert acc. induction xs as [|x xs IH]; intros acc Hstep Hacc; simpl.
  - by intros [= <-].
  - destruct (step acc x) as [b|e] eqn:Hx; simpl; [|discriminate].
    apply IH.
    + intros b0 x0 b' Hin. apply Hstep. by apply list_elem_of_further.
    + eapply Hstep; [apply list_elem_of_here|done..].
Qed.

(** A loop that raises does so in one of its rounds. *)
Lemma foldM_raise (step : B → A → result B) xs acc e :
  foldM step acc xs = Raise e → ∃ b x, x ∈ xs ∧ step b x = Raise e.
Proof.
  revert acc. induction xs as [|x xs IH]; intros acc; simpl; [discriminate|].
  destruct (step acc x) as [b|e'] eqn:Hx; simpl.
  - intros (b' & x' & Hin & Hx')%IH.
    exists b', x'. split; [by apply list_elem_of_further|done].
  - intros [= ->]. exists acc, x. split; [apply list_elem_of_here|done].
Qed.

(** A round that raises whatever the accumulator makes the loop raise. *)
Lemma foldM_not_ok (step : B → A → result B) xs acc x :
  x ∈ xs → (∀ b, is_ok (step b x) = false) → is_ok (foldM step acc xs) = false.
Proof.
  intros Hin Hx. revert acc.
  induction Hin as [x xs|x x' xs Hin IH]; intros acc; simpl.
  - specialize (Hx acc). destruct (step acc x); [discriminate|done].
  - destruct (step acc x'); simpl; [|done]. by apply IH.
Qed.

End loops.

(** ** [store_tests_on_methods] *)

Module StoreTests.
Import TestParser.

Section facts.

Variable cwd : string.
Implicit Types (m : gmap test_key (list test_entry)) (d : DriftData).
Implicit Types (entries acc : list test_entry) (key : test_key).

(** The paths of a non-empty entry list form a singleton set exactly
    when no two entries differ in their path. *)
Lemma size_paths_several entries :
  entries ≠ [] →
  size (list_to_set (entries.*1) : gset string) ≠ 1 ↔
  several_source_paths entries.
Proof.
  intros Hne. split.
  - intros Hsize. destruct entries as [|e0 entries]; [done|].
    destruct (decide (Forall (λ e, e.1 = e0.1) entries)) as [Hall|Hnot].
    + exfalso. apply Hsize.
      assert (list_to_set ((e0 :: entries).*1) = ({[ e0.1 ]} : gset string))
        as ->; [|apply size_singleton].
      apply set_eq. intros x.
      rewrite elem_of_list_to_set, list_elem_of_fmap, elem_of_singleton.
      split.
      * intros (e & -> & [->|Hin]%elem_of_cons); [done|].
        by eapply Forall_forall in Hall.
      * intros ->. exists e0. split; [done|apply list_elem_of_here].
    + apply not_Forall_Exists, Exists_exists in Hnot; [|apply _].
      destruct Hnot as (e & Hin & Hdiff).
      exists e, e0. split_and!; [by apply list_elem_of_further|
                                 apply list_elem_of_here|done].
  - intros (e1 & e2 & Hin1 & Hin2 & Hdiff) Hsize.
    apply Hdiff. eapply (size_singleton_inv _ _ _ Hsize);
      apply elem_of_list_to_set, list_elem_of_fmap; eauto.
Qed.

(** When the consistency check passes, the path that is compared with the
    source root is the path of every entry. *)
Lemma single_path_all entries path0 rest :
  size (list_to_set (entries.*1) : gset string) = 1 →
  elements (list_to_set (entries.*1) : gset string) = path0 :: rest →
  ∀ e, e ∈ entries → e.1 = path0.
Proof.
  intros Hsize Hel e Hin.
  eapply (size_singleton_inv _ _ _ Hsize).
  - apply elem_of_list_to_set, list_elem_of_fmap; eauto.
  - apply elem_of_elements. rewrite Hel. apply list_elem_of_here.
Qed.

Lemma size_1_elements (X : gset string) :
  size X = 1 → ∃ x, elements X = [x].
Proof.
  intros [x Hx]%size_1_elem_of. exists x.
  apply leibniz_equiv in Hx as ->. apply elements_singleton.
Qed.

(** What one round of the key loop does when it completes. *)
Lemma store_key_ok root m acc key acc' :
  store_key cwd root m acc key = Ok acc' →
  acc' = acc ∨
  ∃ entries, m !! key = Some entries ∧ acc' = acc ++ entries ∧
    ∀ e, e ∈ entries →
      PyStr.str_in root (PyStr.abspath cwd e.1) = true.
Proof.
  unfold store_key. destruct (m !! key) as [entries|] eqn:Hm; [|left; congruence].
  destruct entries as [|e0 entries]; [left; congruence|].
  case_bool_decide as Hsize; [discriminate|].
  destruct (elements _) as [|path0 rest] eqn:Hel; [discriminate|].
  destruct (PyStr.str_in _ _) eqn:Hin; intros [= <-]; [right|by left].
  eexists. split_and!; [done..|].
  intros e He. by rewrite (single_path_all _ _ _ Hsize Hel e He).
Qed.

(** One round raises exactly when the entry under the key is non-empty
    and carries several source paths; the error is then the
    mapping-consistency error. *)
Lemma store_key_raises root m acc key entries :
  m !! key = Some entries → entries ≠ [] →
  (is_ok (store_key cwd root m acc key) = false ↔ several_source_paths entries)
  ∧ (several_source_paths entries →
     store_key cwd root m acc key = Raise (ValueError invalid_map_msg)).
Proof.
  intros Hm Hne. pose proof (size_paths_several entries Hne) as Hiff.
  unfold store_key. rewrite Hm.
  destruct entries as [|e0 entries]; [done|].
  case_bool_decide as Hsize.
  - split; [|done]. split; [intros _; by apply Hiff|done].
  - assert (¬ several_source_paths (e0 :: entries)) as Hno by (rewrite <-Hiff; auto).
    destruct (size_1_elements _ Hsize) as [x ->].
    split; [|done]. destruct (PyStr.str_in _ _); split; done.
Qed.

Lemma store_key_raise_inv root m acc key e :
  store_key cwd root m acc key = Raise e →
  e = ValueError invalid_map_msg ∧
  ∃ entries, m !! key = Some entries ∧ several_source_paths entries.
Proof.
  unfold store_key. destruct (m !! key) as [entries|] eqn:Hm; [|discriminate].
  destruct entries as [|e0 entries]; [discriminate|].
  case_bool_decide as Hsize.
  - intros [= <-]. split; [done|]. eexists. split; [done|].
    by apply size_paths_several.
  - destruct (size_1_elements _ Hsize) as [x ->].
    by destruct (PyStr.str_in _ _).
Qed.

Lemma store_keys_ok root m keys acc acc' :
  foldM (store_key cwd root m) acc keys = Ok acc' →
  ∃ appended, acc' = acc ++ appended ∧
    ∀ e, e ∈ appended → accepted_entry cwd m root keys e.
Proof.
  apply (foldM_invariant
    (λ b, ∃ appended, b = acc ++ appended ∧
       ∀ e, e ∈ appended → accepted_entry cwd m root keys e)).
  - intros b key b' Hkey (appended & -> & Happ) Hstep.
    apply store_key_ok in Hstep as [->|(entries & Hm & -> & Hin)]; [eauto|].
    exists (appended ++ entries). split; [by rewrite app_assoc|].
    intros e [?|He]%elem_of_app; [auto|].
    split; [|auto]. by exists key, entries.
  - exists []. split; [by rewrite app_nil_r|]. by intros e ?%elem_of_nil.
Qed.

Lemma store_tests_on_method_ok m d d' :
  store_tests_on_method cwd m d = Ok d' →
  ∃ keys appended,
    lookup_keys d = Ok keys ∧
    d' = replace_test_methods d (test_methods d ++ appended) ∧
    ∀ e, e ∈ appended →
      accepted_entry cwd m (PyStr.dirname (source_path d)) keys e.
Proof.
  unfold store_tests_on_method.
  destruct (lookup_keys d) as [keys|] eqn:Hkeys; simpl; [|discriminate].
  destruct (foldM _ _ _) as [new|] eqn:Hfold; simpl; [|discriminate].
  intros [= <-].
  apply store_keys_ok in Hfold as (appended & -> & Happ). eauto.
Qed.

Lemma replace_test_methods_frame d v :
  same_but_test_methods d (replace_test_methods d v)
  ∧ test_methods (replace_test_methods d v) = v.
Proof. by repeat split. Qed.

Lemma store_tests_on_method_frame m d d' :
  store_tests_on_method cwd m d = Ok d' →
  same_but_test_methods d d' ∧ test_methods d `prefix_of` test_methods d'.
Proof.
  intros (keys & appended & _ & -> & _)%store_tests_on_method_ok.
  split; [apply replace_test_methods_frame|].
  simpl. by apply prefix_app_r.
Qed.

Lemma several_nonempty entries : several_source_paths entries → entries ≠ [].
Proof. intros (e1 & _ & Hin & _) ->. by apply elem_of_nil in Hin. Qed.

Lemma store_tests_on_method_not_ok m d keys key entries :
  lookup_keys d = Ok keys → key ∈ keys →
  m !! key = Some entries → several_source_paths entries →
  is_ok (store_tests_on_method cwd m d) = false.
Proof.
  intros Hkeys Hkey Hm Hsev. unfold store_tests_on_method.
  rewrite Hkeys. simpl.
  pose proof (foldM_not_ok
    (store_key cwd (PyStr.dirname (source_path d)) m) keys
    (test_methods d) key Hkey) as Hfold.
  destruct (foldM _ _ _); [|done]. discriminate Hfold.
  intros b. by apply (store_key_raises _ m b key entries), Hsev;
    [|apply several_nonempty].
Qed.

Lemma store_tests_on_method_raise_inv m d e :
  store_tests_on_method cwd m d = Raise e →
  (lookup_keys d = Raise e ∧ e = IndexError) ∨
  (e = ValueError invalid_map_msg ∧
   ∃ keys key entries, lookup_keys d = Ok keys ∧ key ∈ keys ∧
     m !! key = Some entries ∧ entries ≠ [] ∧ several_source_paths entries).
Proof.
  unfold store_tests_on_method.
  destruct (lookup_keys d) as [keys|e'] eqn:Hkeys; simpl.
  - destruct (foldM _ _ _) as [new|e'] eqn:Hfold; simpl; [discriminate|].
    intros [= ->]. right.
    apply foldM_raise in Hfold as (b & key & Hkey & Hstep).
    apply store_key_raise_inv in Hstep as (-> & entries & Hm & Hsev).
    split; [done|]. exists keys, key, entries.
    split_and!; auto using several_nonempty.
  - intros [= ->]. left. split; [done|].
    unfold lookup_keys in Hkeys.
    repeat (destruct (String.eqb _ _); try discriminate).
    destruct (http_methods d); [congruence|discriminate].
Qed.

(** *** The claims *)

(** C5. The lookup keys of a snippet method follow its parser kind:
    [direct_invocation] gives the single key [(class_name, method_name)],
    [webapp2_router] the single key [(first http method, url)], and
    [flask_router] one key [(http_method, url)] per declared HTTP method;
    these are the keys [store_tests_on_methods] looks up for the method. *)
Theorem lookup_keys_by_parser d :
  (parser d = "direct_invocation" →
   lookup_keys d = Ok [(class_name d, method_name d)])
  ∧ (parser d = "webapp2_router" →
     ∀ first rest, http_methods d = first :: rest →
     lookup_keys d = Ok [(Some first, url d)])
  ∧ (parser d = "flask_router" →
     lookup_keys d =
       Ok (map (λ http_method, (Some http_method, url d)) (http_methods d)))
  ∧ (∀ m, store_tests_on_method cwd m d =
       keys ← lookup_keys d;
       new_test_methods ←
         foldM (store_key cwd (PyStr.dirname (source_path d)) m)
               (test_methods d) keys;
       Ok (replace_test_methods d new_test_methods)).
Proof.
  unfold lookup_keys. split_and!.
  - by intros ->.
  - intros -> first rest ->. done.
  - by intros ->.
  - done.
Qed.

(** C10. On a run of [store_tests_on_methods] that completes, every
    method keeps all fields of its drift record other than [test_methods],
    and its former [test_methods] list is a prefix of the new one. *)
Theorem store_tests_frame source_methods m source_methods' :
  store_tests_on_methods cwd source_methods m = Ok source_methods' →
  Forall2 (λ d d', store_tests_on_method cwd m d = Ok d'
                   ∧ same_but_test_methods d d'
                   ∧ test_methods d `prefix_of` test_methods d')
          source_methods source_methods'.
Proof.
  intros Hok%mapM_result_Forall2.
  eapply Forall2_impl; [done|]. simpl. intros d d' Hd.
  split; [done|]. by apply (store_tests_on_method_frame m).
Qed.

(** C3, as the code has it.  On a run that completes, what a method gains
    is appended to its [test_methods], and every appended entry is recorded
    under one of the method's lookup keys and has an absolute test path
    that contains, as a substring, the directory name of the method's
    source path. *)
Theorem store_appends_substring_matches source_methods m source_methods' :
  store_tests_on_methods cwd source_methods m = Ok source_methods' →
  Forall2 (λ d d', ∃ keys appended,
             lookup_keys d = Ok keys
             ∧ test_methods d' = test_methods d ++ appended
             ∧ ∀ e, e ∈ appended →
                 accepted_entry cwd m (PyStr.dirname (source_path d)) keys e)
          source_methods source_methods'.
Proof.
  intros Hok%mapM_result_Forall2.
  eapply Forall2_impl; [done|]. simpl.
  intros d d' (keys & appended & Hkeys & -> & Happ)%store_tests_on_method_ok.
  by exists keys, appended.
Qed.

(** C4. The consistency check on a key that is present with a non-empty
    entry raises exactly when the entries under the key carry more than
    one distinct test source path; such a key of any method makes
    [store_tests_on_methods] raise instead of completing, a
    mapping-consistency error of [store_tests_on_methods] comes from such a
    key, and when the lookup keys of all methods are defined the function
    raises exactly when some method has such a key. *)
Theorem store_raises_iff_several_paths m :
  (∀ root acc key entries,
     m !! key = Some entries → entries ≠ [] →
     (is_ok (store_key cwd root m acc key) = false
      ↔ several_source_paths entries)
     ∧ (several_source_paths entries →
        store_key cwd root m acc key = Raise (ValueError invalid_map_msg)))
  ∧ (∀ source_methods d keys key entries,
       d ∈ source_methods → lookup_keys d = Ok keys → key ∈ keys →
       m !! key = Some entries → several_source_paths entries →
       is_ok (store_tests_on_methods cwd source_methods m) = false)
  ∧ (∀ source_methods msg,
       store_tests_on_methods cwd source_methods m = Raise (ValueError msg) →
       ∃ d keys key entries,
         d ∈ source_methods ∧ lookup_keys d = Ok keys ∧ key ∈ keys ∧
         m !! key = Some entries ∧ entries ≠ [] ∧
         several_source_paths entries)
  ∧ (∀ source_methods,
       Forall (λ d, is_ok (lookup_keys d) = true) source_methods →
       (is_ok (store_tests_on_methods cwd source_methods m) = false
        ↔ ∃ d keys key entries,
            d ∈ source_methods ∧ lookup_keys d = Ok keys ∧ key ∈ keys ∧
            m !! key = Some entries ∧ entries ≠ [] ∧
            several_source_paths entries)).
Proof.
  split_and!.
  - intros root acc key entries. apply store_key_raises.
  - intros source_methods d keys key entries Hd Hkeys Hkey Hm Hsev.
    apply (mapM_result_not_ok _ _ d Hd).
    by eapply store_tests_on_method_not_ok.
  - intros source_methods msg (d & Hd & Hraise)%mapM_result_raise.
    apply store_tests_on_method_raise_inv in Hraise
      as [[_ [=]]|(_ & keys & key & entries & Hk & Hkey & Hm & Hne & Hsev)].
    by exists d, keys, key, entries.
  - intros source_methods Hall. split.
    + unfold store_tests_on_methods.
      destruct (mapM_result _ _) as [|e] eqn:Hrun; [discriminate|]. intros _.
      apply mapM_result_raise in Hrun as (d & Hd & Hraise).
      apply store_tests_on_method_raise_inv in Hraise
        as [[Hk _]|(_ & keys & key & entries & Hk & Hkey & Hm & Hne & Hsev)].
      * eapply Forall_forall in Hall; [|done]. by rewrite Hk in Hall.
      * by exists d, keys, key, entries.
    + intros (d & keys & key & entries & Hd & Hkeys & Hkey & Hm & _ & Hsev).
      apply (mapM_result_not_ok _ _ d Hd).
      by eapply store_tests_on_method_not_ok.
Qed.

End facts.

(** *** The claims at sample inputs *)

Lemma lookup_keys_by_parser_witness :
  lookup_keys Samples.hello_get = Ok [(Some "main", Some "hello_get")]
  ∧ lookup_keys Samples.sign_post = Ok [(Some "post", Some "/sign")]
  ∧ lookup_keys Samples.root_route =
      Ok [(Some "GET", Some "/"); (Some "HEAD", Some "/");
          (Some "OPTIONS", Some "/")].
Proof.
  split_and!.
  - apply (proj1 (lookup_keys_by_parser "/work" Samples.hello_get)).
    reflexivity.
  - apply (proj1 (proj2 (lookup_keys_by_parser "/work" Samples.sign_post))
             eq_refl "post" []).
    reflexivity.
  - apply (proj1 (proj2 (proj2
             (lookup_keys_by_parser "/work" Samples.root_route)))).
    reflexivity.
Defined.

Lemma store_tests_frame_witness :
  store_tests_on_methods "/work" [Samples.hello_get] Samples.map_beside =
    Ok [replace_test_methods Samples.hello_get
          [("/srv/app/main_test.py", "test_hello_get")]]
  ∧ Forall2 (λ d d',
       store_tests_on_method "/work" Samples.map_beside d = Ok d'
       ∧ same_but_test_methods d d'
       ∧ test_methods d `prefix_of` test_methods d')
      [Samples.hello_get]
      [replace_test_methods Samples.hello_get
         [("/srv/app/main_test.py", "test_hello_get")]].
Proof.
  split; [vm_compute; reflexivity|].
  apply (store_tests_frame "/work" [Samples.hello_get] Samples.map_beside).
  vm_compute. reflexivity.
Defined.

Lemma store_appends_substring_matches_witness :
  store_tests_on_methods "/work" [Samples.hello_get] Samples.map_beside =
    Ok [replace_test_methods Samples.hello_get
          [("/srv/app/main_test.py", "test_hello_get")]]
  ∧ Forall2 (λ d d', ∃ keys appended,
       lookup_keys d = Ok keys
       ∧ test_methods d' = test_methods d ++ appended
       ∧ ∀ e, e ∈ appended →
           accepted_entry "/work" Samples.map_beside
             (PyStr.dirname (source_path d)) keys e)
      [Samples.hello_get]
      [replace_test_methods Samples.hello_get
         [("/srv/app/main_test.py", "test_hello_get")]].
Proof.
  split; [vm_compute; reflexivity|].
  apply (store_appends_substring_matches
           "/work" [Samples.hello_get] Samples.map_beside).
  vm_compute. reflexivity.
Defined.

(** C3, as the specification words it, fails: an entry is appended although
    its test path does not lie under the directory of the snippet's source
    file.  In the first run the directory name ["/srv/app"] merely occurs
    inside ["/tmp/srv/app/main_test.py"]; in the second the source path has
    no directory part, its directory name is the empty string, and the
    empty string occurs in every path. *)
Lemma store_appends_outside_root :
  (store_tests_on_methods "/work" [Samples.hello_get] Samples.map_elsewhere =
     Ok [replace_test_methods Samples.hello_get
           [("/tmp/srv/app/main_test.py", "test_hello_get")]]
   ∧ lies_under "/work" (PyStr.dirname (source_path Samples.hello_get))
       "/tmp/srv/app/main_test.py" = false)
  ∧ (store_tests_on_methods "/work" [Samples.hello_local] Samples.map_elsewhere =
       Ok [replace_test_methods Samples.hello_local
             [("/tmp/srv/app/main_test.py", "test_hello_get")]]
     ∧ lies_under "/work" (PyStr.dirname (source_path Samples.hello_local))
         "/tmp/srv/app/main_test.py" = false).
Proof. vm_compute. done. Qed.

Lemma store_raises_iff_several_paths_witness :
  several_source_paths
    [("/srv/app/main_test.py", "test_hello_get");
     ("/srv/other/main_test.py", "test_hello_get")]
  ∧ is_ok (store_tests_on_methods "/work" [Samples.hello_get]
             Samples.map_collision) = false.
Proof.
  assert (several_source_paths
            [("/srv/app/main_test.py", "test_hello_get");
             ("/srv/other/main_test.py", "test_hello_get")]) as Hsev.
  { exists ("/srv/app/main_test.py", "test_hello_get"),
           ("/srv/other/main_test.py", "test_hello_get").
    split_and!; [apply list_elem_of_here|
                 apply list_elem_of_further, list_elem_of_here|
                 discriminate]. }
  split; [exact Hsev|].
  apply (proj1 (proj2 (store_raises_iff_several_paths
                         "/work" Samples.map_collision))
           [Samples.hello_get] Samples.hello_get
           [Samples.hello_key] Samples.hello_key
           [("/srv/app/main_test.py", "test_hello_get");
            ("/srv/other/main_test.py", "test_hello_get")]).
  - apply list_elem_of_here.
  - reflexivity.
  - apply list_elem_of_here.
  - vm_compute. reflexivity.
  - exact Hsev.
Defined.

End StoreTests.

(** ** [get_test_methods] *)

Module TestFiles.
Import TestParser.

Lemma same_name_twice_NoDup test_nodes :
  same_name_twice test_nodes ↔ ¬ NoDup (test_name <$> test_nodes).
Proof.
  split.
  - rewrite NoDup_alt.
    intros (i & j & n1 & n2 & Hlt & Hi & Hj & Hname) Hnd.
    assert (i = j); [|lia].
    apply (Hnd i j (test_name n1)); rewrite list_lookup_fmap.
    + by rewrite Hi.
    + by rewrite Hj, Hname.
  - induction test_nodes as [|node nodes IH]; simpl.
    { intros []. constructor. }
    rewrite NoDup_cons. intros Hnot.
    destruct (decide (test_name node ∈ test_name <$> nodes)) as [Hin|Hnin].
    + apply list_elem_of_fmap in Hin as (node2 & Hname & Hin).
      apply list_elem_of_lookup in Hin as [j Hj].
      exists 0, (S j), node, node2. split_and!; [lia|done..].
    + destruct IH as (i & j & n1 & n2 & Hlt & Hi & Hj & Hname); [tauto|].
      exists (S i), (S j), n1, n2. split_and!; [lia|done..].
Qed.

(** The uniqueness loop, from any set of names already seen. *)
Lemma check_unique_completes test_path test_nodes used :
  NoDup (test_name <$> test_nodes) →
  (∀ node, node ∈ test_nodes → test_name node ∉ used) →
  is_ok (foldM (check_unique test_path) used test_nodes) = true.
Proof.
  revert used. induction test_nodes as [|node nodes IH]; intros used; [done|].
  rewrite fmap_cons, foldM_cons. intros [Hnin Hnd]%NoDup_cons Hused.
  unfold check_unique at 1.
  rewrite bool_decide_eq_false_2 by (apply Hused, list_elem_of_here).
  apply IH; [done|]. intros node' Hin.
  rewrite not_elem_of_union, not_elem_of_singleton. split.
  - intros Heq. apply Hnin, list_elem_of_fmap. eauto.
  - by apply Hused, list_elem_of_further.
Qed.

Lemma check_unique_raises test_path test_nodes used :
  ¬ (NoDup (test_name <$> test_nodes)
     ∧ ∀ node, node ∈ test_nodes → test_name node ∉ used) →
  ∃ node, node ∈ test_nodes ∧
    foldM (check_unique test_path) used test_nodes =
      Raise (ValueError (not_unique_msg test_path (test_name node))).
Proof.
  revert used. induction test_nodes as [|node nodes IH]; intros used Hnot.
  { destruct Hnot. split; [constructor|]. by intros node ?%elem_of_nil. }
  rewrite foldM_cons. unfold check_unique at 1. case_bool_decide as Hseen.
  - exists node. split; [apply list_elem_of_here|done].
  - destruct (IH ({[test_name node]} ∪ used)) as (node' & Hin & Hraise).
    + intros [Hnd Hused]. apply Hnot. split.
      * apply NoDup_cons. split; [|done].
        intros (node' & Hname & Hin)%list_elem_of_fmap.
        apply (Hused node' Hin). rewrite <-Hname. set_solver.
      * intros node' [->|Hin]%elem_of_cons; [done|].
        specialize (Hused node' Hin). set_solver.
    + exists node'. split; [by apply list_elem_of_further|done].
Qed.

Section facts.

Variable readlines : string → string + list string.
Variable ast_parse : string → result (list ast).

(** C6. A readable (and parsable) test file whose extracted test nodes
    contain two nodes with the same name makes [get_test_methods] raise
    the "must be unique" error for one of its test names; with all test
    names distinct the function returns every extracted test node, each
    carrying the path of the file, and writes nothing to the error
    stream. *)
Theorem get_test_methods_unique_names test_path lines parsed_nodes :
  readlines test_path = inr lines →
  ast_parse (PyStr.join "" lines) = Ok parsed_nodes →
  (same_name_twice (_get_test_nodes parsed_nodes) →
   ∃ node, node ∈ _get_test_nodes parsed_nodes ∧
     get_test_methods readlines ast_parse test_path =
       ([], Raise (ValueError (not_unique_msg test_path (test_name node)))))
  ∧ (NoDup (test_name <$> _get_test_nodes parsed_nodes) →
     get_test_methods readlines ast_parse test_path =
       ([], Ok (map (λ node, mk_test_node node test_path)
                    (_get_test_nodes parsed_nodes)))).
Proof.
  intros Hread Hparse. unfold get_test_methods. rewrite Hread, Hparse. simpl.
  split.
  - intros Htwice%same_name_twice_NoDup.
    destruct (check_unique_raises test_path (_get_test_nodes parsed_nodes) ∅)
      as (node & Hin & ->); [tauto|].
    by exists node.
  - intros Hnd.
    pose proof (check_unique_completes test_path
                  (_get_test_nodes parsed_nodes) ∅ Hnd) as Hok.
    destruct (foldM _ _ _); [done|]. discriminate Hok. set_solver.
Qed.

(** C7. For a test file that cannot be read, [get_test_methods] does not
    raise: it writes the warning and the error's text to the error stream
    and returns the empty list, from which the key map gains nothing. *)
Theorem get_test_methods_unreadable test_path err :
  readlines test_path = inl err →
  get_test_methods readlines ast_parse test_path =
    (unreadable_diagnostic test_path err, Ok [])
  ∧ ∀ HTTP_CLASS_NAMES HTTP_METHOD_NAMES get_key_tuple others returned,
      (get_test_methods readlines ast_parse test_path).2 = Ok returned →
      get_test_key_to_snippet_map HTTP_CLASS_NAMES HTTP_METHOD_NAMES
        get_key_tuple (others ++ returned) =
      get_test_key_to_snippet_map HTTP_CLASS_NAMES HTTP_METHOD_NAMES
        get_key_tuple others.
Proof.
  intros Hread. unfold get_test_methods. rewrite Hread. split; [done|].
  simpl. intros ????? [= <-]. by rewrite app_nil_r.
Qed.

End facts.

(** *** The claims at sample inputs *)

Lemma get_test_methods_unique_names_witness :
  (∃ node, node ∈ _get_test_nodes [Samples.test_hello_get; Samples.test_hello_get] ∧
     get_test_methods Samples.readlines Samples.ast_parse "twice_test.py" =
       ([], Raise (ValueError
                     (not_unique_msg "twice_test.py" (test_name node)))))
  ∧ get_test_methods Samples.readlines Samples.ast_parse "main_test.py" =
      ([], Ok [mk_test_node Samples.test_hello_get "main_test.py";
               mk_test_node Samples.test_sign "main_test.py"]).
Proof.
  split.
  - apply (proj1 (get_test_methods_unique_names
                    Samples.readlines Samples.ast_parse "twice_test.py"
                    _ [Samples.test_hello_get; Samples.test_hello_get]
                    eq_refl eq_refl)).
    exists 0, 1, Samples.test_hello_get, Samples.test_hello_get.
    split_and!; [lia|reflexivity..].
  - apply (proj2 (get_test_methods_unique_names
                    Samples.readlines Samples.ast_parse "main_test.py"
                    _ [Samples.test_hello_get; Samples.test_sign]
                    eq_refl eq_refl)).
    apply (bool_decide_unpack _). vm_compute. exact I.
Defined.

Lemma get_test_methods_unreadable_witness :
  get_test_methods Samples.readlines Samples.ast_parse "missing_test.py" =
    (unreadable_diagnostic "missing_test.py"
       "[Errno 2] No such file or directory: missing_test.py",
     Ok []).
Proof.
  apply (proj1 (get_test_methods_unreadable
                  Samples.readlines Samples.ast_parse "missing_test.py"
                  "[Errno 2] No such file or directory: missing_test.py"
                  eq_refl)).
Defined.

End TestFiles.

(** ** The recursive key resolver *)

Module Resolver.
Import TestParser.

(** Induction over syntax trees, with the hypothesis for every element of
    a list of children. *)
Lemma ast_ind_nested (P : ast → Prop) :
  (∀ id, P (Name id)) →
  (∀ value attr, P value → P (Attribute value attr)) →
  (∀ value, P value → P (Subscript value)) →
  (∀ func args, P func → Forall P args → P (Call func args)) →
  (∀ s, P (Str s)) →
  (∀ left_ comparator0 comparators,
     P left_ → P comparator0 → Forall P comparators →
     P (Compare left_ comparator0 comparators)) →
  (∀ test, P test → P (Assert test)) →
  (∀ body, Forall P body → P (With body)) →
  (∀ body, Forall P body → P (For body)) →
  (∀ name body, Forall P body → P (FunctionDef name body)) →
  (∀ name body, Forall P body → P (ClassDef name body)) →
  P Other →
  ∀ expr, P expr.
Proof.
  intros HName HAttr HSub HCall HStr HCmp HAssert HWith HFor HFun HClass HOther.
  fix IH 1. intros expr.
  destruct expr
    as [id|value attr|value|func args|s|left_ comparator0 comparators
       |test|body|body|name body|name body|].
  - apply HName.
  - apply HAttr, IH.
  - apply HSub, IH.
  - apply HCall; [apply IH|].
    induction args as [|e l IHl]; constructor; [apply IH|exact IHl].
  - apply HStr.
  - apply HCmp; [apply IH..|].
    induction comparators as [|e l IHl]; constructor; [apply IH|exact IHl].
  - apply HAssert, IH.
  - apply HWith.
    induction body as [|e l IHl]; constructor; [apply IH|exact IHl].
  - apply HFor.
    induction body as [|e l IHl]; constructor; [apply IH|exact IHl].
  - apply HFun.
    induction body as [|e l IHl]; constructor; [apply IH|exact IHl].
  - apply HClass.
    induction body as [|e l IHl]; constructor; [apply IH|exact IHl].
  - apply HOther.
Qed.

Section facts.

Variable HTTP_CLASS_NAMES : list string.
Variable HTTP_METHOD_NAMES : list string.

Abbreviation recursor := (__recursor__ HTTP_CLASS_NAMES HTTP_METHOD_NAMES).
Abbreviation route := (http_route HTTP_CLASS_NAMES HTTP_METHOD_NAMES).

Abbreviation safe := (safe HTTP_CLASS_NAMES HTTP_METHOD_NAMES).

Lemma safe_incl expr expr' :
  (∀ e, e ∈ subterms expr' → e ∈ subterms expr) → safe expr → safe expr'.
Proof.
  intros Hincl [Hargs Hattr]. split.
  - intros e args He. apply Hargs. auto.
  - intros e receiver args He. apply Hattr. auto.
Qed.

Lemma subterms_self expr : expr ∈ subterms expr.
Proof. destruct expr; apply list_elem_of_here. Qed.

Lemma subterms_flat_map e expr (l : list ast) :
  expr ∈ l → e ∈ subterms expr → e ∈ flat_map subterms l.
Proof.
  rewrite !list_elem_of_In, in_flat_map. intros ? ?. by exists expr.
Qed.

(** At a node that meets the precondition the HTTP-route branch does not
    raise. *)
Lemma http_route_ok expr :
  safe expr → ∃ o, route expr = Ok o.
Proof.
  intros [Hargs Hattr]. unfold http_route.
  destruct expr as [| | |func args| | | | | | | |]; eauto.
  destruct func as [|value attr|value| | | | | | | | |]; simpl; eauto.
  - destruct value; simpl; eauto.
    case_bool_decide as Hc; simpl; eauto.
    case_bool_decide as Hm; simpl; eauto.
    destruct args as [|[] ?]; eauto.
    exfalso. eapply Hargs; [apply subterms_self| |done].
    eexists _, _. eauto.
  - destruct value; simpl; eauto.
    case_bool_decide as Hc; simpl; eauto.
    exfalso. eapply Hattr; [apply subterms_self|done|done].
Qed.

(** The loop over the body of a [with] or [for] block. *)
Lemma over_body_ok (body : list ast) :
  Forall (λ e, is_ok (recursor e) = true) body →
  ∀ results,
    is_ok ((fix over_body (body : list ast)
                (results : list drift_test.DriftTest) :=
              match body with
              | [] => Ok results
              | subexpr :: body' =>
                  match recursor subexpr with
                  | Raise e => Raise e
                  | Ok found => over_body body' (results ++ found)
                  end
              end) body results) = true.
Proof.
  induction 1 as [|e l He _ IH]; intros results; [done|].
  destruct (recursor e); [apply IH|discriminate].
Qed.

(** Under the precondition the resolver returns a list of keys. *)
Lemma recursor_total expr :
  safe expr → is_ok (recursor expr) = true.
Proof.
  cut ((safe expr → is_ok (recursor expr) = true)
       ∧ match expr with
         | Compare left_ comparator0 _ =>
             (safe left_ → is_ok (recursor left_) = true)
             ∧ (safe comparator0 → is_ok (recursor comparator0) = true)
         | _ => True
         end); [tauto|].
  induction expr
    as [id|value attr [IH _]|value [IH _]|func args [IH _] _|s
       |left_ comparator0 comparators [IHl _] [IHc _] _
       |test [_ IH]|body IH|body IH|name body _|name body _|]
    using ast_ind_nested; (split; [intros Hsafe|try exact I]); try done.
  - (* Attribute *)
    assert (safe value) as Hv.
    { eapply safe_incl; [|exact Hsafe]. intros e He. by apply list_elem_of_further. }
    destruct value; try done; simpl; by apply IH.
  - (* Subscript *)
    simpl. apply IH. eapply safe_incl; [|exact Hsafe].
    intros e He. by apply list_elem_of_further.
  - (* Call *)
    destruct (http_route_ok _ Hsafe) as [o Ho].
    assert (recursor (Call func args) =
            match o with Some t => Ok [t] | None => recursor func end) as ->.
    { simpl. simpl in Ho. by rewrite Ho. }
    destruct o; [done|]. apply IH. eapply safe_incl; [|exact Hsafe].
    intros e He. apply list_elem_of_further, elem_of_app. by left.
  - (* Assert *)
    destruct test as [| | | | |left_ comparator0 comparators| | | | | |];
      try done.
    destruct IH as [IHl IHc]. simpl.
    assert (safe comparator0) as Hc.
    { eapply safe_incl; [|exact Hsafe]. intros e He.
      do 2 apply list_elem_of_further. rewrite !elem_of_app. auto. }
    assert (safe left_) as Hl.
    { eapply safe_incl; [|exact Hsafe]. intros e He.
      do 2 apply list_elem_of_further. rewrite !elem_of_app. auto. }
    specialize (IHl Hl). specialize (IHc Hc).
    destruct (recursor comparator0); [|discriminate].
    by destruct (recursor left_).
  - (* With *)
    simpl. apply over_body_ok.
    apply Forall_forall. intros e He.
    eapply Forall_forall in IH as [IH _]; [|done]. apply IH.
    eapply safe_incl; [|exact Hsafe]. intros e' He'.
    apply list_elem_of_further. by eapply subterms_flat_map.
  - (* For *)
    simpl. apply over_body_ok.
    apply Forall_forall. intros e He.
    eapply Forall_forall in IH as [IH _]; [|done]. apply IH.
    eapply safe_incl; [|exact Hsafe]. intros e' He'.
    apply list_elem_of_further. by eapply subterms_flat_map.
Qed.

(** The resolver applied to a call [receiver.verb()] of an HTTP client,
    directly or as an expression statement. *)
Lemma recursor_no_args receiver verb :
  receiver ∈ HTTP_CLASS_NAMES → verb ∈ HTTP_METHOD_NAMES →
  recursor (Call (Attribute (Name receiver) verb) []) = Raise IndexError
  ∧ recursor (Subscript (Call (Attribute (Name receiver) verb) [])) =
      Raise IndexError.
Proof.
  intros Hc Hm.
  assert (route (Call (Attribute (Name receiver) verb) []) = Raise IndexError)
    as Hroute.
  { unfold http_route. simpl.
    by rewrite !bool_decide_eq_true_2 by done. }
  simpl. simpl in Hroute. by rewrite Hroute.
Qed.

(** C9, as the code has it.  Applied to a call [receiver.verb()] with no
    argument, where [receiver] is a known HTTP client name and [verb] a
    known HTTP method name, the resolver raises [IndexError] at [args[0]]
    instead of contributing no key, and so does
    [get_test_key_to_snippet_map] for a test whose body starts with that
    statement.  The resolver returns a list of keys for every expression
    in which each such call has at least one argument and no call has a
    callee that carries [value] without [attr] on a known HTTP client
    name. *)
Theorem recursor_first_argument :
  (∀ receiver verb,
     receiver ∈ HTTP_CLASS_NAMES → verb ∈ HTTP_METHOD_NAMES →
     recursor (Call (Attribute (Name receiver) verb) []) = Raise IndexError
     ∧ ∀ get_key_tuple name body test_path rest,
         get_test_key_to_snippet_map HTTP_CLASS_NAMES HTTP_METHOD_NAMES
           get_key_tuple
           (mk_test_node
              (FunctionDef name
                 (Subscript (Call (Attribute (Name receiver) verb) [])
                  :: body))
              test_path :: rest) = Raise IndexError)
  ∧ (∀ expr,
       http_calls_have_args HTTP_CLASS_NAMES HTTP_METHOD_NAMES expr →
       callees_have_attr HTTP_CLASS_NAMES expr →
       is_ok (recursor expr) = true).
Proof.
  split.
  - intros receiver verb Hc Hm.
    destruct (recursor_no_args receiver verb Hc Hm) as [Hcall Hstmt].
    split; [done|]. intros get_key_tuple name body test_path rest.
    unfold get_test_key_to_snippet_map.
    rewrite foldM_cons. cbn [node node_body mbind result_bind].
    rewrite foldM_cons. unfold map_subexpr at 1.
    by rewrite Hstmt.
  - intros expr Hargs Hattr. by apply recursor_total.
Qed.

End facts.

(** *** The claim at sample inputs *)

Lemma recursor_first_argument_witness :
  __recursor__ Samples.http_class_names Samples.http_method_names
    (Call (Attribute (Name "client") "get") []) = Raise IndexError
  ∧ is_ok (__recursor__ Samples.http_class_names Samples.http_method_names
             Samples.stmt_assert_post) = true.
Proof.
  split.
  - apply (proj1 (recursor_first_argument
                    Samples.http_class_names Samples.http_method_names)
             "client" "get").
    + apply (bool_decide_unpack _). vm_compute. exact I.
    + apply (bool_decide_unpack _). vm_compute. exact I.
  - apply (proj2 (recursor_first_argument
                    Samples.http_class_names Samples.http_method_names)).
    + intros e args He (receiver & verb & -> & _).
      simpl in He.
      repeat (apply elem_of_cons in He as [He|He];
              [first [discriminate He|by injection He as -> -> ->]|]).
      by apply elem_of_nil in He.
    + intros e receiver args He ->.
      simpl in He.
      repeat (apply elem_of_cons in He as [He|He]; [discriminate He|]).
      by apply elem_of_nil in He.
Defined.

(** C9, as it is worded, fails in both directions.  The statement
    [helper(client.get())] contains a call of an HTTP client method with
    no argument, in a position the resolver does not visit: the resolver
    returns, with no key.  The statement [client[0]('/sign')] contains no
    call of the shape [receiver.verb] at all, so it meets the worded
    precondition, and the resolver raises [AttributeError] at
    [func.attr]. *)
Lemma recursor_skips_call_arguments :
  (Call (Attribute (Name "client") "get") [] ∈ subterms Samples.stmt_nested_get
   ∧ http_client_call Samples.http_class_names Samples.http_method_names
       (Call (Attribute (Name "client") "get") []) []
   ∧ __recursor__ Samples.http_class_names Samples.http_method_names
       Samples.stmt_nested_get = Ok [])
  ∧ (http_calls_have_args Samples.http_class_names Samples.http_method_names
       Samples.stmt_subscript_call
     ∧ __recursor__ Samples.http_class_names Samples.http_method_names
         Samples.stmt_subscript_call = Raise AttributeError).
Proof.
  split_and!.
  - simpl. do 3 apply list_elem_of_further. apply list_elem_of_here.
  - exists "client", "get". split_and!; [done|..];
      apply (bool_decide_unpack _); vm_compute; exact I.
  - vm_compute. reflexivity.
  - intros e args He (receiver & verb & -> & _).
    simpl in He.
    repeat (apply elem_of_cons in He as [He|He]; [discriminate He|]).
    by apply elem_of_nil in He.
  - vm_compute. reflexivity.
Qed.

End Resolver.

(** ** [analyze_json]: deduplication *)

Module Dedupe.
Import Analyze.

(** The methods of a list that carry the key [key]. *)
Abbreviation with_key key := (filter (λ m, dedupe_key m = key)).

Lemma with_key_nonempty key (seen : list method) :
  key ∈ dedupe_key <$> seen → 1 ≤ length (with_key key seen).
Proof.
  intros (m & -> & Hin)%list_elem_of_fmap.
  assert (m ∈ with_key (dedupe_key m) seen) as Hm
    by (by apply list_elem_of_filter).
  destruct (with_key _ seen); [by apply elem_of_nil in Hm|simpl; lia].
Qed.

Lemma with_key_empty key (seen : list method) :
  key ∉ dedupe_key <$> seen → with_key key seen = [].
Proof.
  intros Hnin. induction seen as [|m seen IH]; [done|].
  rewrite fmap_cons, not_elem_of_cons in Hnin. destruct Hnin as [Hne Hnin].
  rewrite filter_cons_False by done. auto.
Qed.

Lemma dedupe_step_inv seen st m :
  dedupe_inv seen st → dedupe_inv (seen ++ [m]) (dedupe_step st m).
Proof.
  intros (Hkeys & Hfirst & Hsub). unfold dedupe_step.
  case_bool_decide as Hseen; unfold dedupe_inv; cbn [fst snd]; split_and!.
  - intros key. rewrite fmap_app, elem_of_app, <-Hkeys.
    change (dedupe_key <$> [m]) with [dedupe_key m].
    rewrite list_elem_of_singleton. split; [auto|]. by intros [?| ->].
  - intros key. rewrite filter_app, Hfirst.
    destruct (decide (dedupe_key m = key)) as [<-|Hne].
    + rewrite take_app_le; [done|]. by apply with_key_nonempty, Hkeys.
    + by rewrite (filter_cons_False _ m), filter_nil, app_nil_r.
  - by apply sublist_inserts_r.
  - intros key.
    rewrite fmap_app, elem_of_app, elem_of_union, elem_of_singleton, Hkeys.
    change (dedupe_key <$> [m]) with [dedupe_key m].
    rewrite list_elem_of_singleton. tauto.
  - intros key. rewrite !filter_app, Hfirst.
    destruct (decide (dedupe_key m = key)) as [<-|Hne].
    + rewrite (with_key_empty _ seen) by (by rewrite <-Hkeys).
      by rewrite (filter_cons_True _ m).
    + by rewrite (filter_cons_False _ m), filter_nil, !app_nil_r.
  - by apply sublist_app.
Qed.

Lemma dedupe_fold_inv rest seen st :
  dedupe_inv seen st →
  dedupe_inv (seen ++ rest) (fold_left dedupe_step rest st).
Proof.
  revert seen st. induction rest as [|m rest IH]; intros seen st Hinv; simpl.
  - by rewrite app_nil_r.
  - rewrite cons_middle, app_assoc. by apply IH, dedupe_step_inv.
Qed.

(** C1, as the code has it.  The methods that share a key, the
    comma-joined list of their region tags in the order of the list, are
    merged into one entry of the deduplicated list, the first of them; the
    entries keep the order of the input. *)
Theorem dedupe_first_wins (source_methods : list method) :
  (∀ key,
     filter (λ m, dedupe_key m = key) (dedupe source_methods) =
     take 1 (filter (λ m, dedupe_key m = key) source_methods))
  ∧ dedupe source_methods `sublist_of` source_methods
  ∧ (∀ m1 m2, region_tags m1 = region_tags m2 → dedupe_key m1 = dedupe_key m2).
Proof.
  destruct (dedupe_fold_inv source_methods [] (∅, [])) as (_ & Hfirst & Hsub).
  { split_and!; [|done..]. intros key. simpl. set_solver. }
  split_and!; [done|done|]. unfold dedupe_key. by intros m1 m2 ->.
Qed.

(** C1, as it is worded, fails: two methods whose region tags are equal as
    sets, and equal after sorting, are both kept when their lists differ in
    order. *)
Lemma dedupe_keeps_reordered_tags :
  let m1 := mk_method "nested_method" "main.py" ["nested_tag"; "root_tag"] [] in
  let m2 := mk_method "other_method" "main.py" ["root_tag"; "nested_tag"] [] in
  (list_to_set (region_tags m1) : gset string) = list_to_set (region_tags m2)
  ∧ region_tags m1 ≡ₚ region_tags m2
  ∧ dedupe [m1; m2] = [m1; m2].
Proof.
  split_and!.
  - apply (bool_decide_unpack _). vm_compute. exact I.
  - apply Permutation_swap.
  - vm_compute. reflexivity.
Qed.

End Dedupe.

(** ** [analyze_json]: ignored tags *)

Module Ignored.
Import Analyze.

Section facts.

Variable set_iter : gset string → list string.
Variable get_region_tag_regions : string → list region * list string.
Variable add_region_tags_to_methods : list method → list region → list method.
Variable add_children_drift_data : list method → list method.
Variable add_yaml_data_to_source_methods : list method → string → list method.
Variable get_untested_region_tags : string → list string.

(** Iterating over a set visits its elements. *)
Hypothesis set_iter_elem_of : ∀ (X : gset string) x, x ∈ set_iter X ↔ x ∈ X.

Abbreviation scan :=
  (scan_source_file get_region_tag_regions add_region_tags_to_methods).

(** The ignored tags after the loop over the source files are those
    before it and the tags the files mark as ignored. *)
Lemma scan_ignored_tags files st t :
  t ∈ (fold_left scan files st).2 ↔
  t ∈ st.2 ∨ ∃ source_file,
    source_file ∈ files ∧ t ∈ (get_region_tag_regions source_file).2.
Proof.
  revert st. induction files as [|f files IH]; intros st; simpl.
  - split; [auto|]. intros [?|(f & ?%elem_of_nil & _)]; done.
  - rewrite IH. destruct st as [[ms grep] ignored].
    unfold scan_source_file.
    destruct (get_region_tag_regions f) as [regions names] eqn:Hf.
    cbn [snd]. rewrite elem_of_union, elem_of_list_to_set. split.
    + intros [[?|?]|(f' & Hin & Ht)]; [by left|right..].
      * exists f. rewrite Hf. split; [apply list_elem_of_here|done].
      * exists f'. split; [by apply list_elem_of_further|done].
    + intros [?|(f' & [->|Hin]%elem_of_cons & Ht)]; [by left; left|..].
      * left; right. by rewrite Hf in Ht.
      * right. by exists f'.
Qed.

(** C2, as the code has it.  A region tag that a source file of the
    analysed methods marks as ignored appears neither in the detected
    (grep) tags nor in the source tags that [analyze_json] returns, and it
    is among the ignored tags returned. *)
Theorem marker_ignored_tags_removed json_methods root_dir source_file t :
  source_file ∈ source_path <$> json_methods →
  t ∈ (get_region_tag_regions source_file).2 →
  let result :=
    analyze_json set_iter get_region_tag_regions add_region_tags_to_methods
      add_children_drift_data add_yaml_data_to_source_methods
      get_untested_region_tags json_methods root_dir in
  (t ∉ result.1.1.1) ∧ (t ∉ result.1.1.2) ∧ (t ∈ result.1.2).
Proof using Type*.
  intros Hfile Hmark. unfold analyze_json.
  pose proof (scan_ignored_tags
    (set_iter (list_to_set (source_path <$> json_methods)))
    (json_methods, ∅, ∅) t) as Hscan.
  destruct (fold_left _ _ _) as [[ms grep] ignored]. cbn [snd] in Hscan.
  assert (t ∈ ignored) as Hign.
  { apply Hscan. right. exists source_file. split; [|done].
    by apply set_iter_elem_of, elem_of_list_to_set. }
  cbn [fst snd]. split_and!.
  - rewrite list_elem_of_In, filter_In, bool_decide_eq_true. tauto.
  - rewrite list_elem_of_In, filter_In, bool_decide_eq_true. tauto.
  - apply set_iter_elem_of, elem_of_union. by left.
Qed.

End facts.

(** *** The claim at sample inputs *)

Lemma marker_ignored_tags_removed_witness :
  let result :=
    analyze_json elements Samples.get_region_tag_regions_marked
      Samples.add_region_tags_to_methods id (λ ms _, ms) (λ _, [])
      [Samples.sample_method] "." in
  ("sample_tag" ∉ result.1.1.1) ∧ ("sample_tag" ∉ result.1.1.2)
  ∧ ("sample_tag" ∈ result.1.2).
Proof.
  apply (marker_ignored_tags_removed elements
           Samples.get_region_tag_regions_marked
           Samples.add_region_tags_to_methods id (λ ms _, ms) (λ _, [])
           (λ X x, elem_of_elements X x)
           [Samples.sample_method] "." "main.py" "sample_tag").
  - apply list_elem_of_here.
  - apply list_elem_of_here.
Defined.

(** C2, as it is worded, fails for the tags ignored through the YAML
    configuration: they join the ignored tags after the two lists were
    filtered, and stay in both. *)
Lemma yaml_ignored_tag_reported :
  analyze_json elements Samples.get_region_tag_regions
    Samples.add_region_tags_to_methods id (λ ms _, ms)
    Samples.get_untested_region_tags [Samples.sample_method] "." =
  (["sample_tag"], ["sample_tag"], ["sample_tag"],
   [mk_method "index" "main.py" ["sample_tag"]
      [("main_test.py", "test_index")]])
  ∧ "sample_tag" ∈ Samples.get_untested_region_tags ".".
Proof.
  split; [vm_compute; reflexivity|apply list_elem_of_here].
Qed.

End Ignored.

(** ** Joining and splitting strings *)

Module Strings.
Import PyStr.

Lemma split_nonempty c s : split c s ≠ [].
Proof. destruct s as [|a s]; simpl; [done|]. by destruct (Ascii.eqb a c), (split c s). Qed.

Lemma split_app c x rest :
  has_chr c x = false →
  split c (x +:+ String c rest) = x :: split c rest.
Proof.
  induction x as [|a x IH]; simpl.
  - intros _. by rewrite Ascii.eqb_refl.
  - intros [Ha Hx]%orb_false_elim. rewrite Ha, (IH Hx). done.
Qed.

Lemma split_plain c x : has_chr c x = false → split c x = [x].
Proof.
  induction x as [|a x IH]; simpl; [done|].
  intros [Ha Hx]%orb_false_elim. by rewrite Ha, (IH Hx).
Qed.

(** Splitting what was joined gives the list back, when no element holds
    the separator. *)
Lemma split_join c l :
  l ≠ [] → Forall (λ x, has_chr c x = false) l →
  split c (join (chr c) l) = l.
Proof.
  intros Hne Hall. induction Hall as [|x l Hx Hall IH]; [done|].
  destruct l as [|y l].
  - simpl. by apply split_plain.
  - change (join (chr c) (x :: y :: l))
      with (x +:+ String c (join (chr c) (y :: l))).
    rewrite split_app by done. by rewrite IH.
Qed.

(** The pieces of a split hold no separator. *)
Lemma split_pieces c s : Forall (λ x, has_chr c x = false) (split c s).
Proof.
  induction s as [|a s IH]; simpl.
  - by repeat constructor.
  - destruct (Ascii.eqb a c) eqn:Ha.
    + by constructor.
    + pose proof (split_nonempty c s).
      destruct (split c s) as [|x xs]; [done|].
      inversion_clear IH. constructor; [|done]. simpl. by rewrite Ha.
Qed.

Lemma join_nonempty sp l x :
  x ∈ l → x ≠ "" → nonempty (join sp l) = true.
Proof.
  intros Hin Hx. induction l as [|y l IH]; [by apply elem_of_nil in Hin|].
  destruct l as [|z l].
  - apply list_elem_of_singleton in Hin as <-. simpl. by destruct x.
  - change (join sp (y :: z :: l)) with (y +:+ sp +:+ join sp (z :: l)).
    destruct y as [|a y]; [|done]. simpl.
    apply elem_of_cons in Hin as [->|Hin]; [done|].
    specialize (IH Hin). destruct sp; [done|done].
Qed.

End Strings.

(** ** [inject_snippet_mapping] *)

Module Inject.
Import Cli.

Section facts.

Variable set_iter : gset string → list string.

(** Iterating over a set visits each of its elements once. *)
Hypothesis set_iter_elements : ∀ X : gset string, set_iter X ≡ₚ elements X.

Abbreviation injected := (injected_region_tags set_iter).
Abbreviation step := (inject_method set_iter).

(** The methods whose test keys contain [test_key]. *)
Abbreviation matched test_key :=
  (filter (λ m : Analyze.method, test_key ∈ method_test_keys m)).

(** The value written for one matched method. *)
Lemma injected_union existing_tag_str region_tags :
  ∃ l, injected existing_tag_str region_tags = PyStr.join "," l
       ∧ NoDup l
       ∧ ∀ t, t ∈ l ↔ t ∈ existing_tag_list existing_tag_str ∨ t ∈ region_tags.
Proof using Type*.
  unfold injected_region_tags. eexists. split_and!; [done|..].
  - rewrite set_iter_elements. apply NoDup_elements.
  - intros t. rewrite set_iter_elements, elem_of_elements.
    by rewrite elem_of_list_to_set, elem_of_app.
Qed.

(** The tags read back from a value that was written for tag names. *)
Lemma existing_tag_list_join l t0 :
  t0 ∈ l → t0 ≠ "" → Forall (λ x, PyStr.has_chr "," x = false) l →
  existing_tag_list (Some (PyStr.join "," l)) = l.
Proof.
  intros Hin Hne Hall. unfold existing_tag_list.
  rewrite (Strings.join_nonempty "," l t0) by done.
  apply (Strings.split_join ","%char); [|done].
  intros ->. by apply elem_of_nil in Hin.
Qed.

Lemma existing_tag_list_pieces existing_tag_str :
  Forall (λ x, PyStr.has_chr "," x = false)
         (existing_tag_list existing_tag_str).
Proof.
  unfold existing_tag_list. destruct existing_tag_str as [s|]; [|done].
  destruct (PyStr.nonempty s); [apply Strings.split_pieces|done].
Qed.

(** One matched method whose tags are tag names: the element gets the
    union as its [region_tags] attribute, and reading the attribute back
    gives that union. *)
Lemma step_matched test_key (elem : element) m :
  test_key ∈ method_test_keys m →
  Analyze.region_tags m ≠ [] → Forall tag_name (Analyze.region_tags m) →
  ∃ l, step test_key elem m = <["region_tags" := PyStr.join "," l]> elem
       ∧ NoDup l
       ∧ (∀ t, t ∈ l ↔ t ∈ existing_tag_list (elem !! "region_tags")
                      ∨ t ∈ Analyze.region_tags m)
       ∧ existing_tag_list (Some (PyStr.join "," l)) = l.
Proof using Type*.
  intros Hkey Hne Hnames. unfold inject_method.
  rewrite bool_decide_eq_true_2 by done.
  destruct (injected_union (elem !! "region_tags") (Analyze.region_tags m))
    as (l & -> & Hnd & Hl).
  exists l. split_and!; [done..|].
  destruct (Analyze.region_tags m) as [|t0 tags] eqn:Htags; [done|].
  apply Forall_cons in Hnames as [[Ht0 Hc0] Hnames].
  apply (existing_tag_list_join l t0); [|done|].
  - apply Hl. right. apply list_elem_of_here.
  - apply Forall_forall. intros t [Ht|Ht]%Hl.
    + by eapply Forall_forall in Ht; [|apply existing_tag_list_pieces].
    + apply elem_of_cons in Ht as [->|Ht]; [done|].
      by eapply Forall_forall in Hnames as [_ ?].
Qed.

(** The loop over the methods, from any element. *)
Lemma fold_matched test_key source_methods (elem : element) :
  Forall (λ m, Analyze.region_tags m ≠ []
               ∧ Forall tag_name (Analyze.region_tags m))
         (matched test_key source_methods) →
  (matched test_key source_methods = []
   ∧ fold_left (step test_key) source_methods elem = elem)
  ∨ ∃ l, fold_left (step test_key) source_methods elem =
           <["region_tags" := PyStr.join "," l]> elem
         ∧ NoDup l
         ∧ ∀ t, t ∈ l ↔ t ∈ existing_tag_list (elem !! "region_tags")
                       ∨ ∃ m, m ∈ matched test_key source_methods
                              ∧ t ∈ Analyze.region_tags m.
Proof using Type*.
  revert elem. induction source_methods as [|m ms IH]; intros elem Hall.
  { by left. }
  cbn [fold_left].
  destruct (decide (test_key ∈ method_test_keys m)) as [Hkey|Hkey].
  - rewrite filter_cons_True in Hall |- * by done.
    apply Forall_cons in Hall as [[Hne Hnames] Hall]. right.
    destruct (step_matched test_key elem m Hkey Hne Hnames)
      as (l & -> & Hnd & Hl & Hback).
    destruct (IH (<["region_tags" := PyStr.join "," l]> elem) Hall)
      as [[Hnone ->]|(l' & -> & Hnd' & Hl')].
    + exists l. split_and!; [done..|]. intros t. rewrite Hl. split.
      * intros [?|?]; [by left|right]. exists m.
        split; [apply list_elem_of_here|done].
      * intros [?|(m' & Hm' & ?)]; [by left|right]. rewrite Hnone in Hm'.
        by apply list_elem_of_singleton in Hm' as ->.
    + exists l'. split_and!; [by rewrite insert_insert_eq|done|].
      intros t. rewrite Hl', lookup_insert_eq, Hback, Hl. split.
      * intros [[?|?]|(m' & Hm' & ?)]; [by left|right..].
        -- exists m. split; [apply list_elem_of_here|done].
        -- exists m'. split; [by apply list_elem_of_further|done].
      * intros [?|(m' & [->|Hm']%elem_of_cons & ?)];
          [by left; left|by left; right|right].
        by exists m'.
  - rewrite filter_cons_False in Hall |- * by done.
    assert (step test_key elem m = elem) as ->; [|by apply IH].
    unfold inject_method. by rewrite bool_decide_eq_false_2.
Qed.

(** C8. For a testcase element and a snippet method that matches it, the
    [region_tags] attribute written is the comma-joined list of the
    elements, each once, of the union of the tags already present in the
    attribute (none when it is absent or empty) and the method's region
    tags; the other attributes stay.  When all matching methods carry tag
    names, the attribute a testcase ends with joins, each once, the tags it
    had and the tags of all its matching methods. *)
Theorem inject_region_tags_union :
  (∀ test_key (elem : element) m,
     test_key ∈ method_test_keys m →
     ∃ l, inject_method set_iter test_key elem m =
            <["region_tags" := PyStr.join "," l]> elem
          ∧ NoDup l
          ∧ ∀ t, t ∈ l ↔ t ∈ existing_tag_list (elem !! "region_tags")
                        ∨ t ∈ Analyze.region_tags m)
  ∧ (∀ source_methods (elem : element) test_key,
       elem_test_key elem = Ok test_key →
       matched test_key source_methods ≠ [] →
       Forall (λ m, Analyze.region_tags m ≠ []
                    ∧ Forall tag_name (Analyze.region_tags m))
              (matched test_key source_methods) →
       ∃ l, inject_elem set_iter source_methods elem =
              Ok (<["region_tags" := PyStr.join "," l]> elem)
            ∧ NoDup l
            ∧ ∀ t, t ∈ l ↔ t ∈ existing_tag_list (elem !! "region_tags")
                          ∨ ∃ m, m ∈ matched test_key source_methods
                                 ∧ t ∈ Analyze.region_tags m).
Proof using Type*.
  split.
  - intros test_key elem m Hkey. unfold inject_method.
    rewrite bool_decide_eq_true_2 by done.
    destruct (injected_union (elem !! "region_tags") (Analyze.region_tags m))
      as (l & -> & Hnd & Hl).
    by exists l.
  - intros source_methods elem test_key Hkey Hsome Hall.
    unfold inject_elem. rewrite Hkey. simpl.
    destruct (fold_matched test_key source_methods elem Hall)
      as [[Hnone _]|(l & -> & Hnd & Hl)]; [done|].
    by exists l.
Qed.

End facts.

(** *** The claim at a sample input *)

Lemma inject_region_tags_union_witness :
  ∃ l, inject_elem elements
         [Samples.index_method; Samples.sign_method] Samples.testcase =
         Ok (<["region_tags" := PyStr.join "," l]> Samples.testcase)
       ∧ NoDup l
       ∧ ∀ t, t ∈ l ↔
           t ∈ existing_tag_list (Samples.testcase !! "region_tags")
           ∨ ∃ m, m ∈ filter (λ m : Analyze.method,
                                ("main_test", "test_index") ∈ method_test_keys m)
                             [Samples.index_method; Samples.sign_method]
                  ∧ t ∈ Analyze.region_tags m.
Proof.
  assert (filter (λ m : Analyze.method,
                    ("main_test", "test_index") ∈ method_test_keys m)
                 [Samples.index_method; Samples.sign_method] =
          [Samples.index_method; Samples.sign_method]) as Hmatched
    by (vm_compute; reflexivity).
  apply (proj2 (inject_region_tags_union elements
                  (λ X, reflexivity (elements X)))
           [Samples.index_method; Samples.sign_method] Samples.testcase
           ("main_test", "test_index")).
  - vm_compute. reflexivity.
  - rewrite Hmatched. discriminate.
  - rewrite Hmatched.
    repeat (constructor; [split; [discriminate|]|]);
      repeat constructor; discriminate.
Defined.

End Inject.

(** * Further properties of the code *)

(** ** [_get_test_nodes] and [get_test_methods] *)

Module TestNodes.
Import TestParser.

(** The nodes [_get_test_nodes] returns are the top-level nodes and the
    direct members of top-level classes that carry a name starting with
    [test_]; nothing nested deeper is returned. *)
Theorem get_test_nodes_members parsed_nodes node :
  node ∈ _get_test_nodes parsed_nodes ↔
  is_test_node node = true
  ∧ (node ∈ parsed_nodes
     ∨ ∃ name body, ClassDef name body ∈ parsed_nodes ∧ node ∈ body).
Proof.
  unfold _get_test_nodes.
  rewrite list_elem_of_In, filter_In, in_flat_map.
  setoid_rewrite <-list_elem_of_In. split.
  - intros [(top & Htop & Hnode) Htest]. split; [done|].
    apply elem_of_cons in Hnode as [->|Hnode]; [by left|right].
    destruct top; try by apply elem_of_nil in Hnode.
    eauto.
  - intros [Htest [Htop|(name & body & Hclass & Hnode)]]; (split; [|done]).
    + exists node. split; [done|apply list_elem_of_here].
    + exists (ClassDef name body). split; [done|].
      by apply list_elem_of_further.
Qed.

Section facts.

Variable readlines : string → string + list string.
Variable ast_parse : string → result (list ast).

(** What [get_test_methods] returns without raising: test nodes with
    pairwise distinct names, each a member of the parsed file and each
    carrying the path that was asked for; and it writes to the error
    stream exactly when the file cannot be read. *)
Theorem get_test_methods_returned test_path err test_nodes :
  get_test_methods readlines ast_parse test_path = (err, Ok test_nodes) →
  NoDup (test_name ∘ node <$> test_nodes)
  ∧ Forall (λ n, TestParser.test_path n = test_path
                 ∧ is_test_node (node n) = true) test_nodes
  ∧ (err ≠ [] ↔ ∃ msg, readlines test_path = inl msg).
Proof.
  unfold get_test_methods.
  destruct (readlines test_path) as [msg|lines] eqn:Hread.
  - intros [= <- <-]. split_and!; [constructor|constructor|].
    split; [eauto|done].
  - destruct (ast_parse _) as [parsed|] eqn:Hparse; simpl; [|discriminate].
    destruct (foldM _ _ _) as [used|] eqn:Hfold; simpl; [|discriminate].
    intros [= <- <-]. split_and!.
    + destruct (decide (NoDup (test_name <$> _get_test_nodes parsed)))
        as [Hnd|Hdup].
      * clear -Hnd. induction (_get_test_nodes parsed) as [|n l IH]; [done|].
        apply NoDup_cons in Hnd as [Hn Hnd]. simpl. apply NoDup_cons.
        split; [|auto]. intros (x & Hx & Hin)%list_elem_of_fmap.
        apply list_elem_of_In, in_map_iff in Hin as (n' & <- & Hin).
        apply Hn, list_elem_of_fmap. exists n'.
        by rewrite list_elem_of_In.
      * destruct (TestFiles.check_unique_raises test_path
                    (_get_test_nodes parsed) ∅) as (n & _ & Hraise);
          [tauto|congruence].
    + apply Forall_forall. intros n Hn.
      apply list_elem_of_In, in_map_iff in Hn as (n' & <- & Hn).
      split; [done|]. simpl.
      by apply list_elem_of_In, get_test_nodes_members in Hn as [? _].
    + split; [done|]. by intros [msg [=]].
Qed.

End facts.

Lemma get_test_methods_returned_witness :
  NoDup (test_name ∘ node <$>
           [mk_test_node Samples.test_hello_get "main_test.py";
            mk_test_node Samples.test_sign "main_test.py"])
  ∧ Forall (λ n, TestParser.test_path n = "main_test.py"
                 ∧ is_test_node (node n) = true)
      [mk_test_node Samples.test_hello_get "main_test.py";
       mk_test_node Samples.test_sign "main_test.py"]
  ∧ (@nil string ≠ [] ↔ ∃ msg, Samples.readlines "main_test.py" = inl msg).
Proof.
  apply (get_test_methods_returned Samples.readlines Samples.ast_parse
           "main_test.py" []).
  vm_compute. reflexivity.
Defined.

End TestNodes.

(** ** The key resolver: what it returns and how it fails *)

Module ResolverResults.
Import TestParser.

Section facts.

Variable HTTP_CLASS_NAMES : list string.
Variable HTTP_METHOD_NAMES : list string.

Abbreviation recursor := (__recursor__ HTTP_CLASS_NAMES HTTP_METHOD_NAMES).
Abbreviation route := (http_route HTTP_CLASS_NAMES HTTP_METHOD_NAMES).

(** The two shapes of a resolved test: a direct invocation
    [class_name.method_name], or a request [http_method url] whose method
    is a known HTTP method name. *)
Definition resolved_shape (t : drift_test.DriftTest) : Prop :=
  (∃ class_name method_name,
     t = drift_test.mkDriftTest (Some class_name) (Some method_name) None None)
  ∨ (∃ url http_method,
       t = drift_test.mkDriftTest None None (Some url) (Some http_method)
       ∧ http_method ∈ HTTP_METHOD_NAMES).

Definition lookup_failure (e : exn) : Prop :=
  e = IndexError ∨ e = AttributeError.

Lemma over_body_concat (body : list ast) :
  ∀ results,
    (fix over_body (body : list ast) (results : list drift_test.DriftTest) :=
       match body with
       | [] => Ok results
       | subexpr :: body' =>
           match recursor subexpr with
           | Raise e => Raise e
           | Ok found => over_body body' (results ++ found)
           end
       end) body results =
    (found ← mapM_result recursor body; Ok (results ++ concat found)).
Proof.
  induction body as [|subexpr body IH]; intros results; simpl.
  - by rewrite app_nil_r.
  - destruct (recursor subexpr) as [found|e]; simpl; [|done].
    rewrite IH. destruct (mapM_result _ body); simpl; [|done].
    by rewrite app_assoc.
Qed.

(** The keys of a [with] or [for] block are the keys of its statements,
    in their order, duplicates kept; the block raises what the first
    failing statement raises. *)
Theorem recursor_block body :
  __recursor__ HTTP_CLASS_NAMES HTTP_METHOD_NAMES (With body) =
    (found ← mapM_result
               (__recursor__ HTTP_CLASS_NAMES HTTP_METHOD_NAMES) body;
     Ok (concat found))
  ∧ __recursor__ HTTP_CLASS_NAMES HTTP_METHOD_NAMES (For body) =
    __recursor__ HTTP_CLASS_NAMES HTTP_METHOD_NAMES (With body).
Proof.
  split; [|done]. simpl. by rewrite over_body_concat.
Qed.

Lemma route_outcome expr :
  (∀ t, route expr = Ok (Some t) → resolved_shape t)
  ∧ (∀ e, route expr = Raise e → lookup_failure e).
Proof.
  unfold http_route, lookup_failure.
  destruct expr as [| | |func args| | | | | | | |]; try done.
  destruct (node_value func) as [receiver|]; [|done].
  destruct (node_id receiver) as [id|]; [|done].
  case_bool_decide; [|done].
  destruct (node_attr func) as [verb|e'] eqn:Hattr; simpl.
  - case_bool_decide as Hverb; [|done].
    destruct args as [|[] args]; split; try done; [intros e [= <-]; auto|].
    intros t [= <-]. right. eauto.
  - split; [done|]. intros e [= <-].
    destruct func; simpl in Hattr; try discriminate Hattr;
      injection Hattr as <-; auto.
Qed.

Definition outcome (expr : ast) : Prop :=
  (∀ keys, recursor expr = Ok keys → Forall resolved_shape keys)
  ∧ (∀ e, recursor expr = Raise e → lookup_failure e).

Lemma block_outcome body :
  Forall outcome body → outcome (With body).
Proof.
  intros Hall. unfold outcome.
  destruct (recursor_block body) as [-> _]. split.
  - intros keys.
    destruct (mapM_result recursor body) as [found|] eqn:Hmap; simpl;
      [|discriminate].
    intros [= <-]. apply mapM_result_Forall2 in Hmap.
    apply Forall_concat.
    induction Hmap as [|x y l k Hx _ IH]; [constructor|].
    apply Forall_cons in Hall as [[Hok _] Hall]. constructor; auto.
  - intros e.
    destruct (mapM_result recursor body) as [found|e'] eqn:Hmap; simpl;
      [discriminate|].
    intros [= <-]. apply mapM_result_raise in Hmap as (x & Hx & Hraise).
    eapply Forall_forall in Hall as [_ Hfail]; [|done]. eauto.
Qed.

Lemma recursor_outcome expr : outcome expr.
Proof.
  cut (outcome expr
       ∧ match expr with
         | Compare left_ comparator0 _ => outcome left_ ∧ outcome comparator0
         | _ => True
         end); [tauto|].
  induction expr
    as [id|value attr [IH _]|value [IH _]|func args [IH _] _|s
       |left_ comparator0 comparators [IHl _] [IHc _] _
       |test [_ IH]|body IH|body IH|name body _|name body _|]
    using Resolver.ast_ind_nested;
    (split; [|try exact I]);
    try by (split; [intros ? [= <-]|]).
  - destruct value; try exact IH.
    split; [|done]. intros keys [= <-].
    constructor; [|constructor]. left. eauto.
  - exact IH.
  - destruct (route_outcome (Call func args)) as [Hsome Hfail].
    assert (recursor (Call func args) =
            match route (Call func args) with
            | Raise e => Raise e
            | Ok (Some t) => Ok [t]
            | Ok None => recursor func
            end) as Heq by done.
    unfold outcome. rewrite Heq.
    destruct (route (Call func args)) as [[t|]|e']; [| |].
    + split; [|done]. intros keys [= <-].
      constructor; [|constructor]. auto.
    + exact IH.
    + split; [done|]. intros e [= <-]. auto.
  - done.
  - destruct test as [| | | | |left_ comparator0 comparators| | | | | |];
      try by (split; [intros ? [= <-]|]).
    destruct IH as [[Hl Hlf] [Hc Hcf]]. unfold outcome. simpl.
    destruct (recursor comparator0) as [results0|e0].
    + destruct (recursor left_) as [results1|e1].
      * split; [|done]. intros keys [= <-]. apply Forall_app. auto.
      * split; [done|]. intros e [= <-]. auto.
    + split; [done|]. intros e [= <-]. auto.
  - apply block_outcome. eapply Forall_impl; [exact IH|]. by intros ? [? _].
  - apply block_outcome. eapply Forall_impl; [exact IH|]. by intros ? [? _].
Qed.


(** The resolver fails only at [args[0]] of a call without arguments or
    at [func.attr] of a callee that has none. *)
Theorem recursor_failure expr e :
  __recursor__ HTTP_CLASS_NAMES HTTP_METHOD_NAMES expr = Raise e →
  e = IndexError ∨ e = AttributeError.
Proof. apply recursor_outcome. Qed.

End facts.


Lemma recursor_failure_witness :
  AttributeError = IndexError ∨ AttributeError = AttributeError.
Proof.
  apply (recursor_failure Samples.http_class_names
           Samples.http_method_names Samples.stmt_subscript_call).
  vm_compute. reflexivity.
Defined.

End ResolverResults.

(** ** [store_tests_on_methods]: edge cases and reruns *)

Module StoreEdges.
Import TestParser.

Section facts.

Variable cwd : string.
Implicit Types (m : gmap test_key (list test_entry)) (d : DriftData).
Implicit Types (entries acc : list test_entry) (key : test_key).

Lemma replace_test_methods_same d : replace_test_methods d (test_methods d) = d.
Proof. by destruct d. Qed.

(** The lookup keys are undefined for one kind of method only: a
    [webapp2_router] method without HTTP methods, where [http_methods[0]]
    is out of range; a run that meets such a method first ends with
    [IndexError]. *)
Theorem lookup_keys_undefined d :
  (lookup_keys d = Raise IndexError ↔
   parser d = "webapp2_router" ∧ http_methods d = [])
  ∧ (∀ e, lookup_keys d = Raise e → e = IndexError)
  ∧ (parser d = "webapp2_router" → http_methods d = [] →
     ∀ m source_methods,
       store_tests_on_methods cwd (d :: source_methods) m = Raise IndexError).
Proof.
  assert (lookup_keys d = Raise IndexError ↔
          parser d = "webapp2_router" ∧ http_methods d = []) as Hiff.
  { unfold lookup_keys.
    destruct (String.eqb (parser d) "direct_invocation") eqn:H1.
    - apply String.eqb_eq in H1. split; [done|]. intros [H2 _].
      by rewrite H1 in H2.
    - destruct (String.eqb (parser d) "webapp2_router") eqn:H2.
      + apply String.eqb_eq in H2.
        destruct (http_methods d); split; try done; by intros [_ ?].
      + apply String.eqb_neq in H2.
        destruct (String.eqb (parser d) "flask_router");
          (split; [done|by intros [? _]]). }
  split_and!; [done|..].
  - unfold lookup_keys. intros e.
    repeat (destruct (String.eqb _ _); try done).
    destruct (http_methods d); [by intros [= <-]|done].
  - intros Hp Hm m source_methods.
    unfold store_tests_on_methods, store_tests_on_method. simpl.
    by rewrite (proj2 Hiff (conj Hp Hm)).
Qed.

(** A key absent from the map, or present with an empty entry, changes
    nothing. *)
Lemma store_key_absent root m acc key :
  m !! key = None ∨ m !! key = Some [] →
  store_key cwd root m acc key = Ok acc.
Proof. unfold store_key. by intros [-> | ->]. Qed.

Lemma store_keys_absent root m keys acc :
  (∀ key, key ∈ keys → m !! key = None ∨ m !! key = Some []) →
  foldM (store_key cwd root m) acc keys = Ok acc.
Proof.
  induction keys as [|key keys IH]; intros Habs; [done|].
  rewrite foldM_cons, store_key_absent by (apply Habs, list_elem_of_here).
  apply IH. intros key' ?. by apply Habs, list_elem_of_further.
Qed.

(** Snippets none of whose lookup keys has entries in the map, among them
    the snippets of an unknown parser kind, come back as they were: no
    test is no error. *)
Theorem store_tests_no_match source_methods m :
  Forall (λ d, ∃ keys, lookup_keys d = Ok keys
                 ∧ ∀ key, key ∈ keys → m !! key = None ∨ m !! key = Some [])
         source_methods →
  store_tests_on_methods cwd source_methods m = Ok source_methods.
Proof.
  unfold store_tests_on_methods.
  induction 1 as [|d ds (keys & Hkeys & Habs) _ IH]; [done|].
  assert (store_tests_on_method cwd m d = Ok d) as Hd.
  { unfold store_tests_on_method. rewrite Hkeys. simpl.
    rewrite store_keys_absent by done. simpl.
    by rewrite replace_test_methods_same. }
  simpl. rewrite Hd. simpl. by rewrite IH.
Qed.

(** The entries under a key that all carry one test path. *)
Lemma store_key_one_path root m acc key entries path :
  m !! key = Some entries → entries ≠ [] →
  Forall (λ e, e.1 = path) entries →
  store_key cwd root m acc key =
    Ok (if PyStr.str_in root (PyStr.abspath cwd path)
        then acc ++ entries else acc).
Proof.
  intros Hm Hne Hall. unfold store_key. rewrite Hm.
  destruct entries as [|e0 entries]; [done|].
  assert ((list_to_set ((e0 :: entries).*1) : gset string) = {[path]}) as ->.
  { apply set_eq. intros x.
    rewrite elem_of_list_to_set, list_elem_of_fmap, elem_of_singleton. split.
    - intros (e & -> & He). by eapply Forall_forall in Hall.
    - intros ->. exists e0. split; [|apply list_elem_of_here].
      by apply Forall_cons in Hall as [-> _]. }
  rewrite size_singleton, elements_singleton. simpl.
  by destruct (PyStr.str_in _ _).
Qed.

(** For a snippet with one lookup key whose entries all carry one test
    path, the entries are appended when the directory name of the source
    path occurs in the absolute test path, and the snippet is left as it
    was otherwise. *)
Theorem store_tests_one_path m d key entries path :
  lookup_keys d = Ok [key] →
  m !! key = Some entries → entries ≠ [] →
  Forall (λ e, e.1 = path) entries →
  store_tests_on_method cwd m d =
    Ok (if PyStr.str_in (PyStr.dirname (source_path d))
                        (PyStr.abspath cwd path)
        then replace_test_methods d (test_methods d ++ entries)
        else d).
Proof.
  intros Hkeys Hm Hne Hall. unfold store_tests_on_method.
  rewrite Hkeys. simpl.
  rewrite (store_key_one_path _ m _ key entries path) by done. simpl.
  destruct (PyStr.str_in _ _); [done|].
  by rewrite replace_test_methods_same.
Qed.

(** What a key contributes does not depend on the list built so far. *)
Lemma store_key_shift root m acc key :
  store_key cwd root m acc key =
  match store_key cwd root m [] key with
  | Ok appended => Ok (acc ++ appended)
  | Raise e => Raise e
  end.
Proof.
  unfold store_key. destruct (m !! key) as [[|e0 entries]|];
    [by rewrite app_nil_r| |by rewrite app_nil_r].
  case_bool_decide; [done|].
  destruct (elements _); [done|].
  destruct (PyStr.str_in _ _); by rewrite ?app_nil_r.
Qed.

Lemma store_keys_shift root m keys acc :
  foldM (store_key cwd root m) acc keys =
  match foldM (store_key cwd root m) [] keys with
  | Ok appended => Ok (acc ++ appended)
  | Raise e => Raise e
  end.
Proof.
  revert acc. induction keys as [|key keys IH]; intros acc.
  { simpl. by rewrite app_nil_r. }
  rewrite !foldM_cons, (store_key_shift _ _ acc).
  destruct (store_key cwd root m [] key) as [app1|e]; [|done].
  rewrite (IH (acc ++ app1)), (IH app1).
  destruct (foldM _ [] keys) as [app2|e]; [|done].
  by rewrite app_assoc.
Qed.

(** Correlating twice is not idempotent: a second run over the result of
    a first appends the same entries once more. *)
Theorem store_tests_twice m d d' :
  store_tests_on_method cwd m d = Ok d' →
  ∃ appended,
    test_methods d' = test_methods d ++ appended
    ∧ store_tests_on_method cwd m d' =
        Ok (replace_test_methods d
              (test_methods d ++ appended ++ appended)).
Proof.
  unfold store_tests_on_method.
  destruct (lookup_keys d) as [keys|] eqn:Hkeys; simpl; [|discriminate].
  rewrite store_keys_shift.
  destruct (foldM _ [] keys) as [appended|] eqn:Hfold; simpl; [|discriminate].
  intros [= <-]. exists appended. split; [done|].
  assert (lookup_keys (replace_test_methods d (test_methods d ++ appended))
          = lookup_keys d) as -> by done.
  rewrite Hkeys. simpl. rewrite store_keys_shift, Hfold. simpl.
  by rewrite <-app_assoc.
Qed.

End facts.

(** *** At sample inputs *)

Lemma store_tests_no_match_witness :
  store_tests_on_methods "/work"
    [Samples.sign_post; Samples.root_route] Samples.map_beside =
  Ok [Samples.sign_post; Samples.root_route].
Proof.
  apply (store_tests_no_match "/work").
  repeat constructor; eexists; (split; [reflexivity|]);
    intros key Hkey; left;
    repeat (apply elem_of_cons in Hkey as [->|Hkey]; [by vm_compute|]);
    by apply elem_of_nil in Hkey.
Defined.

Lemma store_tests_one_path_witness :
  store_tests_on_method "/work" Samples.map_elsewhere Samples.hello_get =
  Ok (replace_test_methods Samples.hello_get
        [("/tmp/srv/app/main_test.py", "test_hello_get")]).
Proof.
  apply (store_tests_one_path "/work" Samples.map_elsewhere Samples.hello_get
           Samples.hello_key [("/tmp/srv/app/main_test.py", "test_hello_get")]
           "/tmp/srv/app/main_test.py").
  - reflexivity.
  - vm_compute. reflexivity.
  - discriminate.
  - by repeat constructor.
Defined.

Lemma store_tests_twice_witness :
  ∃ appended,
    test_methods (replace_test_methods Samples.hello_get
                    [("/srv/app/main_test.py", "test_hello_get")]) =
      test_methods Samples.hello_get ++ appended
    ∧ store_tests_on_method "/work" Samples.map_beside
        (replace_test_methods Samples.hello_get
           [("/srv/app/main_test.py", "test_hello_get")]) =
      Ok (replace_test_methods Samples.hello_get
            (test_methods Samples.hello_get ++ appended ++ appended)).
Proof.
  apply (store_tests_twice "/work" Samples.map_beside Samples.hello_get).
  vm_compute. reflexivity.
Defined.

Lemma lookup_keys_undefined_witness :
  store_tests_on_methods "/work"
    [mkDriftData "post" "/srv/app/guestbook.py" 20 30 "webapp2_router"
       (Some "/sign") [] None None ["sign_handler"] []]
    Samples.map_beside = Raise IndexError.
Proof.
  apply (proj2 (proj2 (lookup_keys_undefined "/work"
           (mkDriftData "post" "/srv/app/guestbook.py" 20 30 "webapp2_router"
              (Some "/sign") [] None None ["sign_handler"] [])))
           eq_refl eq_refl Samples.map_beside []).
Defined.

End StoreEdges.

(** ** [get_test_key_to_snippet_map] and its use in the correlation *)

Module KeyMap.
Import TestParser.

(** An entry made for one of the test methods. *)
Definition entry_of (test_methods : list test_node) (e : test_entry) : Prop :=
  ∃ method, method ∈ test_methods
            ∧ e = (test_path method, test_name (node method)).

(** What the key map keeps while it is built from [test_methods]: no key
    with an empty entry, and no entry other than those of the methods. *)
Definition key_map_inv (test_methods : list test_node)
    (m : gmap test_key (list test_entry)) : Prop :=
  ∀ key entries, m !! key = Some entries →
    entries ≠ [] ∧ ∀ e, e ∈ entries → entry_of test_methods e.

Lemma append_entry_inv test_methods m key e :
  key_map_inv test_methods m → entry_of test_methods e →
  key_map_inv test_methods (append_entry m key e).
Proof.
  intros Hinv He key' entries. unfold append_entry.
  destruct (decide (key = key')) as [<-|Hne].
  - rewrite lookup_insert_eq. intros [= <-]. split.
    { by destruct (default [] (m !! key)). }
    intros e' [Hold| ->%list_elem_of_singleton]%elem_of_app; [|done].
    destruct (m !! key) as [old|] eqn:Hm; [|by apply elem_of_nil in Hold].
    by apply (Hinv key old Hm).
  - rewrite lookup_insert_ne by done. apply Hinv.
Qed.

Section facts.

Variable HTTP_CLASS_NAMES : list string.
Variable HTTP_METHOD_NAMES : list string.
Variable get_key_tuple : drift_test.DriftTest → result test_key.

(** Every entry of the map that [get_test_key_to_snippet_map] returns is
    the pair (test path, test name) of one of the test methods it was
    given, and no key of the map has an empty entry. *)
Theorem key_map_entries test_methods m :
  get_test_key_to_snippet_map HTTP_CLASS_NAMES HTTP_METHOD_NAMES
    get_key_tuple test_methods = Ok m →
  ∀ key entries, m !! key = Some entries →
    entries ≠ []
    ∧ ∀ e, e ∈ entries →
        ∃ method, method ∈ test_methods
                  ∧ e = (test_path method, test_name (node method)).
Proof.
  unfold get_test_key_to_snippet_map.
  apply (foldM_invariant (key_map_inv test_methods)); [|done].
  intros m0 method m1 Hmethod Hinv.
  destruct (node_body (node method)) as [body|]; simpl; [|done].
  apply (foldM_invariant (key_map_inv test_methods)); [|done].
  clear m0 m1 Hinv. intros m0 subexpr m1 _ Hinv. unfold map_subexpr.
  destruct (__recursor__ _ _ subexpr) as [children|]; simpl; [|done].
  apply (foldM_invariant (key_map_inv test_methods)); [|done].
  clear m0 m1 Hinv. intros m0 child m1 _ Hinv.
  destruct (get_key_tuple child) as [key|]; simpl; [|done].
  intros [= <-]. apply append_entry_inv; [done|]. by exists method.
Qed.

(** A map built from test methods of one file passes the consistency
    check of [store_tests_on_methods]: that function never raises its
    mapping error for it, and completes whenever the lookup keys of the
    snippets are defined. *)
Theorem one_file_map_consistent test_methods path m cwd source_methods :
  Forall (λ method, test_path method = path) test_methods →
  get_test_key_to_snippet_map HTTP_CLASS_NAMES HTTP_METHOD_NAMES
    get_key_tuple test_methods = Ok m →
  (∀ msg, store_tests_on_methods cwd source_methods m
          ≠ Raise (ValueError msg))
  ∧ (Forall (λ d, is_ok (lookup_keys d) = true) source_methods →
     is_ok (store_tests_on_methods cwd source_methods m) = true).
Proof.
  intros Hpath Hmap.
  assert (∀ key entries, m !! key = Some entries →
                         ¬ several_source_paths entries) as Hone.
  { intros key entries Hm (e1 & e2 & He1 & He2 & Hdiff).
    destruct (key_map_entries _ _ Hmap key entries Hm) as [_ Hof].
    destruct (Hof e1 He1) as (m1 & Hm1 & ->).
    destruct (Hof e2 He2) as (m2 & Hm2 & ->).
    apply Hdiff. simpl.
    eapply Forall_forall in Hm1; [|done]. eapply Forall_forall in Hm2; [|done].
    simpl in Hm1, Hm2. congruence. }
  assert (∀ e, store_tests_on_methods cwd source_methods m = Raise e →
               ∃ d, d ∈ source_methods ∧ lookup_keys d = Raise e) as Hraise.
  { intros e (d & Hd & Hr)%mapM_result_raise. exists d. split; [done|].
    apply StoreTests.store_tests_on_method_raise_inv in Hr
      as [[? _]|(_ & keys & key & entries & _ & _ & Hm & _ & Hsev)]; [done|].
    by destruct (Hone key entries Hm). }
  split.
  - intros msg (d & _ & Hk)%Hraise.
    unfold lookup_keys in Hk.
    repeat (destruct (String.eqb _ _); try done).
    by destruct (http_methods d).
  - intros Hall.
    destruct (store_tests_on_methods cwd source_methods m) as [|e] eqn:Hrun;
      [done|].
    destruct (Hraise e eq_refl) as (d & Hd & Hk).
    eapply Forall_forall in Hall; [|done]. by rewrite Hk in Hall.
Qed.

End facts.

(** The key map of the sample test file. *)
Definition sample_key_map : gmap test_key (list test_entry) :=
  {[ (Some "main", Some "hello_get") := [("main_test.py", "test_hello_get")];
     (Some "post", Some "/sign") := [("main_test.py", "test_sign")] ]}.

Lemma key_map_entries_witness :
  [("main_test.py", "test_sign")] ≠ []
  ∧ ∀ e, e ∈ [("main_test.py", "test_sign")] →
      ∃ method,
        method ∈ [mk_test_node Samples.test_hello_get "main_test.py";
                  mk_test_node Samples.test_sign "main_test.py"]
        ∧ e = (test_path method, test_name (node method)).
Proof.
  apply (key_map_entries Samples.http_class_names Samples.http_method_names
           Samples.key_tuple
           [mk_test_node Samples.test_hello_get "main_test.py";
            mk_test_node Samples.test_sign "main_test.py"]
           sample_key_map eq_refl (Some "post", Some "/sign")).
  vm_compute. reflexivity.
Defined.

Lemma one_file_map_consistent_witness :
  (∀ msg, store_tests_on_methods "/work"
            [Samples.hello_get; Samples.sign_post] sample_key_map
          ≠ Raise (ValueError msg))
  ∧ (Forall (λ d, is_ok (lookup_keys d) = true)
            [Samples.hello_get; Samples.sign_post] →
     is_ok (store_tests_on_methods "/work"
              [Samples.hello_get; Samples.sign_post] sample_key_map) = true).
Proof.
  apply (one_file_map_consistent Samples.http_class_names
           Samples.http_method_names Samples.key_tuple
           [mk_test_node Samples.test_hello_get "main_test.py";
            mk_test_node Samples.test_sign "main_test.py"]
           "main_test.py" sample_key_map "/work"
           [Samples.hello_get; Samples.sign_post]).
  - by repeat constructor.
  - vm_compute. reflexivity.
Defined.

End KeyMap.

(** ** From a test's call to the snippet's test list *)

Module Correlation.
Import TestParser.

Section facts.

Variable HTTP_CLASS_NAMES : list string.
Variable HTTP_METHOD_NAMES : list string.
Variable get_key_tuple : drift_test.DriftTest → result test_key.
Variable cwd : string.

Abbreviation recursor := (__recursor__ HTTP_CLASS_NAMES HTTP_METHOD_NAMES).
Abbreviation key_map :=
  (get_test_key_to_snippet_map HTTP_CLASS_NAMES HTTP_METHOD_NAMES
     get_key_tuple).








End facts.



End Correlation.

(** ** Deduplication: what the output looks like *)

Module DedupeShape.
Import Analyze.

Lemma at_most_one_NoDup (l : list method) :
  (∀ key, length (filter (λ m, dedupe_key m = key) l) ≤ 1) →
  NoDup (dedupe_key <$> l).
Proof.
  induction l as [|x l IH]; intros Hone; [constructor|].
  rewrite fmap_cons. apply NoDup_cons. split.
  - intros (y & Hkey & Hy)%list_elem_of_fmap.
    specialize (Hone (dedupe_key x)).
    rewrite filter_cons_True in Hone by done. simpl in Hone.
    assert (y ∈ filter (λ m, dedupe_key m = dedupe_key x) l) as Hin
      by (by apply list_elem_of_filter).
    destruct (filter _ l); [by apply elem_of_nil in Hin|simpl in Hone; lia].
  - apply IH. intros key. specialize (Hone key).
    destruct (decide (dedupe_key x = key)).
    + rewrite filter_cons_True in Hone by done. simpl in Hone. lia.
    + by rewrite filter_cons_False in Hone by done.
Qed.

Lemma dedupe_fold_distinct rest :
  ∀ seen st,
    (∀ key, key ∈ st.1 ↔ key ∈ dedupe_key <$> seen) →
    NoDup (dedupe_key <$> seen ++ rest) →
    (fold_left dedupe_step rest st).2 = st.2 ++ rest.
Proof.
  induction rest as [|m rest IH]; intros seen st Hkeys Hnd; simpl.
  { by rewrite app_nil_r. }
  rewrite cons_middle, app_assoc in Hnd.
  assert (dedupe_key m ∉ st.1) as Hfresh.
  { rewrite Hkeys. rewrite fmap_app in Hnd.
    apply NoDup_app in Hnd as [Hnd _]. rewrite fmap_app in Hnd.
    apply NoDup_app in Hnd as (_ & Hnd & _). intros Hin.
    apply (Hnd _ Hin). apply list_elem_of_here. }
  unfold dedupe_step at 2. rewrite bool_decide_eq_false_2 by done.
  rewrite (IH (seen ++ [m])); [cbn [snd]; by rewrite <-app_assoc|..|done].
  intros key. cbn [fst]. rewrite fmap_app, elem_of_app, elem_of_union, Hkeys.
  change (dedupe_key <$> [m]) with [dedupe_key m].
  rewrite elem_of_singleton, list_elem_of_singleton. tauto.
Qed.

(** After deduplication no two methods share a key, every key of the
    input is still carried by some method, and every method is one of the
    input. *)
Theorem dedupe_keys_distinct source_methods :
  NoDup (dedupe_key <$> dedupe source_methods)
  ∧ (∀ m, m ∈ source_methods →
       ∃ m', m' ∈ dedupe source_methods ∧ dedupe_key m' = dedupe_key m)
  ∧ (∀ m, m ∈ dedupe source_methods → m ∈ source_methods).
Proof.
  destruct (Dedupe.dedupe_fold_inv source_methods [] (∅, []))
    as (_ & Hfirst & Hsub).
  { split_and!; [|done..]. intros key. simpl. set_solver. }
  fold (dedupe source_methods) in Hfirst, Hsub. simpl in Hfirst.
  split_and!.
  - apply at_most_one_NoDup. intros key. rewrite Hfirst, length_take. lia.
  - intros m Hm.
    assert (m ∈ filter (λ m', dedupe_key m' = dedupe_key m) source_methods)
      as Hin by (by apply list_elem_of_filter).
    specialize (Hfirst (dedupe_key m)).
    destruct (filter (λ m', dedupe_key m' = dedupe_key m) source_methods)
      as [|m' l]; [by apply elem_of_nil in Hin|].
    simpl in Hfirst. exists m'.
    assert (m' ∈ filter (λ m', dedupe_key m' = dedupe_key m)
                        (dedupe source_methods)) as Hm'
      by (rewrite Hfirst; apply list_elem_of_here).
    by apply list_elem_of_filter in Hm' as [? ?].
  - intros m Hm. by eapply elem_of_sublist.
Qed.

(** Deduplication changes nothing in a list whose keys are distinct, so
    deduplicating twice is deduplicating once. *)
Theorem dedupe_idempotent source_methods :
  (NoDup (dedupe_key <$> source_methods) →
   dedupe source_methods = source_methods)
  ∧ dedupe (dedupe source_methods) = dedupe source_methods.
Proof.
  assert (∀ l, NoDup (dedupe_key <$> l) → dedupe l = l) as Hid.
  { intros l Hnd. unfold dedupe.
    by rewrite (dedupe_fold_distinct l [] (∅, [])); [|set_solver|]. }
  split; [apply Hid|]. apply Hid, dedupe_keys_distinct.
Qed.

End DedupeShape.

(** ** [analyze_json]: what the returned lists hold *)

Module AnalyzeResults.
Import Analyze.

Section facts.

Variable set_iter : gset string → list string.
Variable get_region_tag_regions : string → list region * list string.
Variable add_region_tags_to_methods : list method → list region → list method.
Variable add_children_drift_data : list method → list method.
Variable add_yaml_data_to_source_methods : list method → string → list method.
Variable get_untested_region_tags : string → list string.

(** Iterating over a set visits each of its elements once. *)
Hypothesis set_iter_elements : ∀ X : gset string, set_iter X ≡ₚ elements X.

Abbreviation scan :=
  (scan_source_file get_region_tag_regions add_region_tags_to_methods).
Abbreviation analyze :=
  (analyze_json set_iter get_region_tag_regions add_region_tags_to_methods
     add_children_drift_data add_yaml_data_to_source_methods
     get_untested_region_tags).

(** "[t] is marked as ignored in a source file of the methods." *)
Definition marker_ignored (json_methods : list method) (t : string) : Prop :=
  ∃ source_file, source_file ∈ source_path <$> json_methods
                 ∧ t ∈ (get_region_tag_regions source_file).2.

(** "[t] names a region of a source file of the methods." *)
Definition region_in_sources (json_methods : list method) (t : string)
  : Prop :=
  ∃ source_file r, source_file ∈ source_path <$> json_methods
                   ∧ r ∈ (get_region_tag_regions source_file).1
                   ∧ region_tag_name r = t.

Lemma set_iter_elem_of (X : gset string) x : x ∈ set_iter X ↔ x ∈ X.
Proof using Type*. by rewrite set_iter_elements, elem_of_elements. Qed.

Lemma set_iter_NoDup (X : gset string) : NoDup (set_iter X).
Proof using Type*. rewrite set_iter_elements. apply NoDup_elements. Qed.

Lemma scan_grep_tags files st t :
  t ∈ (fold_left scan files st).1.2 ↔
  t ∈ st.1.2 ∨ ∃ source_file r,
    source_file ∈ files ∧ r ∈ (get_region_tag_regions source_file).1
    ∧ region_tag_name r = t.
Proof.
  revert st. induction files as [|f files IH]; intros st; simpl.
  - split; [auto|]. intros [?|(f & r & ?%elem_of_nil & _)]; done.
  - rewrite IH. destruct st as [[ms grep] ignored].
    unfold scan_source_file.
    destruct (get_region_tag_regions f) as [regions names] eqn:Hf.
    cbn [fst snd].
    rewrite elem_of_union, elem_of_list_to_set, list_elem_of_fmap. split.
    + intros [[?|(r & -> & Hr)]|(f' & r & Hin & Hr & Ht)]; [by left|right..].
      * exists f, r. rewrite Hf. split_and!; [apply list_elem_of_here|done..].
      * exists f', r. split_and!; [by apply list_elem_of_further|done..].
    + intros [?|(f' & r & [->|Hin]%elem_of_cons & Hr & Ht)]; [by left; left|..].
      * left; right. rewrite Hf in Hr. by exists r.
      * right. by exists f', r.
Qed.

Lemma union_tags_elem_of (methods : list method) (X : gset string) t :
  t ∈ fold_left (λ source_tags m, source_tags ∪ list_to_set (region_tags m))
                methods X ↔
  t ∈ X ∨ ∃ m, m ∈ methods ∧ t ∈ region_tags m.
Proof.
  revert X. induction methods as [|m ms IH]; intros X; simpl.
  - split; [auto|]. intros [?|(m & ?%elem_of_nil & _)]; done.
  - rewrite IH, elem_of_union, elem_of_list_to_set. split.
    + intros [[?|?]|(m' & Hin & ?)]; [by left|right..].
      * exists m. split; [apply list_elem_of_here|done].
      * exists m'. split; [by apply list_elem_of_further|done].
    + intros [?|(m' & [->|Hin]%elem_of_cons & ?)];
        [by left; left|by left; right|right].
      by exists m'.
Qed.

Lemma scanned_ignored json_methods t :
  t ∈ (fold_left scan (set_iter (list_to_set (source_path <$> json_methods)))
         (json_methods, ∅, ∅)).2 ↔
  marker_ignored json_methods t.
Proof using Type*.
  rewrite (Ignored.scan_ignored_tags get_region_tag_regions
             add_region_tags_to_methods).
  unfold marker_ignored. cbn [snd]. split.
  - intros [?%not_elem_of_empty|(f & Hf & ?)]; [done|]. exists f.
    by rewrite set_iter_elem_of, elem_of_list_to_set in Hf.
  - intros (f & Hf & ?). right. exists f.
    by rewrite set_iter_elem_of, elem_of_list_to_set.
Qed.

Lemma scanned_grep json_methods t :
  t ∈ (fold_left scan (set_iter (list_to_set (source_path <$> json_methods)))
         (json_methods, ∅, ∅)).1.2 ↔
  region_in_sources json_methods t.
Proof using Type*.
  rewrite scan_grep_tags. unfold region_in_sources. cbn [fst snd]. split.
  - intros [?%not_elem_of_empty|(f & r & Hf & ?)]; [done|]. exists f, r.
    by rewrite set_iter_elem_of, elem_of_list_to_set in Hf.
  - intros (f & r & Hf & ?). right. exists f, r.
    by rewrite set_iter_elem_of, elem_of_list_to_set.
Qed.

(** The ignored tags that [analyze_json] returns are the tags marked as
    ignored in the source files together with the tags the YAML
    configuration lists as untested, each once. *)
Theorem analyze_json_ignored_tags json_methods root_dir :
  NoDup (analyze json_methods root_dir).1.2
  ∧ ∀ t, t ∈ (analyze json_methods root_dir).1.2 ↔
         marker_ignored json_methods t
         ∨ t ∈ get_untested_region_tags root_dir.
Proof using Type*.
  unfold analyze_json.
  pose proof (scanned_ignored json_methods) as Hign.
  destruct (fold_left _ _ _) as [[ms grep] ignored]. cbn [fst snd] in *.
  split; [apply set_iter_NoDup|]. intros t.
  by rewrite set_iter_elem_of, elem_of_union, elem_of_list_to_set, Hign.
Qed.

(** The detected tags returned are the tags of the regions of the source
    files that no source file marks as ignored; the source tags returned
    are the region tags of the returned methods that no source file marks
    as ignored; both lists are free of duplicates. *)
Theorem analyze_json_tag_lists json_methods root_dir :
  let result := analyze json_methods root_dir in
  NoDup (result.1.1.1) ∧ NoDup (result.1.1.2)
  ∧ (∀ t, t ∈ result.1.1.1 ↔
          region_in_sources json_methods t ∧ ¬ marker_ignored json_methods t)
  ∧ (∀ t, t ∈ result.1.1.2 ↔
          (∃ m, m ∈ result.2 ∧ t ∈ region_tags m)
          ∧ ¬ marker_ignored json_methods t).
Proof using Type*.
  unfold analyze_json.
  pose proof (scanned_ignored json_methods) as Hign.
  pose proof (scanned_grep json_methods) as Hgrep.
  destruct (fold_left _ _ _) as [[ms grep] ignored]. cbn [fst snd] in *.
  split_and!.
  - apply NoDup_ListNoDup, List.NoDup_filter, NoDup_ListNoDup, set_iter_NoDup.
  - apply NoDup_ListNoDup, List.NoDup_filter, NoDup_ListNoDup, set_iter_NoDup.
  - intros t.
    rewrite list_elem_of_In, filter_In, <-list_elem_of_In, bool_decide_eq_true.
    by rewrite set_iter_elem_of, Hgrep, Hign.
  - intros t.
    rewrite list_elem_of_In, filter_In, <-list_elem_of_In, bool_decide_eq_true.
    rewrite set_iter_elem_of, union_tags_elem_of, Hign. split.
    + by intros [[?%not_elem_of_empty|?] ?].
    + intros [? ?]. split; [by right|done].
Qed.

(** The methods handed to [add_children_drift_data] all carry region tags
    and no two of them share a deduplication key. *)
Theorem analyze_json_handed_methods json_methods root_dir :
  ∃ handed,
    (analyze json_methods root_dir).2 =
      add_yaml_data_to_source_methods (add_children_drift_data handed) root_dir
    ∧ Forall (λ m, region_tags m ≠ []) handed
    ∧ NoDup (dedupe_key <$> handed).
Proof.
  unfold analyze_json.
  destruct (fold_left _ _ _) as [[ms grep] ignored]. cbn [fst snd].
  eexists. split_and!; [done|..].
  - apply Forall_forall. intros m Hm.
    apply DedupeShape.dedupe_keys_distinct in Hm.
    apply list_elem_of_In, filter_In in Hm as [_ Htags].
    unfold has_region_tags in Htags. by destruct (region_tags m).
  - apply DedupeShape.dedupe_keys_distinct.
Qed.

(** With no method in the artifact no source file is scanned: no tag is
    detected, the ignored tags are those of the YAML configuration, and
    the collaborators are handed the empty list. *)
Theorem analyze_json_empty root_dir :
  (analyze [] root_dir).1.1.1 = []
  ∧ (analyze [] root_dir).1.2 =
      set_iter (list_to_set (get_untested_region_tags root_dir))
  ∧ (analyze [] root_dir).2 =
      add_yaml_data_to_source_methods (add_children_drift_data []) root_dir.
Proof using Type*.
  assert (set_iter ∅ = []) as Hnil.
  { apply Permutation_nil. by rewrite set_iter_elements, elements_empty. }
  unfold analyze_json. simpl. rewrite Hnil. simpl. rewrite Hnil.
  split_and!; [done| |done]. cbn [fst snd].
  by rewrite (left_id_L ∅ (∪)).
Qed.

End facts.

(** *** At the sample collaborators *)

Abbreviation sample_analyze :=
  (analyze_json elements Samples.get_region_tag_regions_marked
     Samples.add_region_tags_to_methods id (λ ms _, ms)
     Samples.get_untested_region_tags).

Lemma analyze_json_ignored_tags_witness :
  NoDup (sample_analyze [Samples.sample_method] ".").1.2
  ∧ ∀ t, t ∈ (sample_analyze [Samples.sample_method] ".").1.2 ↔
         marker_ignored Samples.get_region_tag_regions_marked
           [Samples.sample_method] t
         ∨ t ∈ Samples.get_untested_region_tags ".".
Proof.
  apply (analyze_json_ignored_tags elements
           Samples.get_region_tag_regions_marked
           Samples.add_region_tags_to_methods id (λ ms _, ms)
           Samples.get_untested_region_tags
           (λ X, reflexivity (elements X))).
Defined.

Lemma analyze_json_tag_lists_witness :
  let result := sample_analyze [Samples.sample_method] "." in
  NoDup (result.1.1.1) ∧ NoDup (result.1.1.2)
  ∧ (∀ t, t ∈ result.1.1.1 ↔
          region_in_sources Samples.get_region_tag_regions_marked
            [Samples.sample_method] t
          ∧ ¬ marker_ignored Samples.get_region_tag_regions_marked
                [Samples.sample_method] t)
  ∧ (∀ t, t ∈ result.1.1.2 ↔
          (∃ m, m ∈ result.2 ∧ t ∈ region_tags m)
          ∧ ¬ marker_ignored Samples.get_region_tag_regions_marked
                [Samples.sample_method] t).
Proof.
  apply (analyze_json_tag_lists elements
           Samples.get_region_tag_regions_marked
           Samples.add_region_tags_to_methods id (λ ms _, ms)
           Samples.get_untested_region_tags
           (λ X, reflexivity (elements X))).
Defined.

Lemma analyze_json_empty_witness :
  (sample_analyze [] ".").1.1.1 = []
  ∧ (sample_analyze [] ".").1.2 =
      elements (list_to_set (Samples.get_untested_region_tags ".")
                : gset string)
  ∧ (sample_analyze [] ".").2 = [].
Proof.
  apply (analyze_json_empty elements
           Samples.get_region_tag_regions_marked
           Samples.add_region_tags_to_methods id (λ ms _, ms)
           Samples.get_untested_region_tags
           (λ X, reflexivity (elements X))).
Defined.

End AnalyzeResults.

(** ** [inject_snippet_mapping]: test keys, errors and reruns *)

Module InjectEdges.
Import Cli.

(** A [testcase] element from which the loop can read a test key: it has
    the attributes [classname] and [name], and some dot-separated part of
    [classname] does not start with [Test]. *)
Definition keyed (elem : element) : Prop :=
  ∃ classname name part,
    elem !! "classname" = Some classname ∧ elem !! "name" = Some name
    ∧ part ∈ PyStr.split "." classname
    ∧ PyStr.startswith part "Test" = false.

(** Two elements with the same attributes, [region_tags] apart. *)
Definition same_but_region_tags (elem elem' : element) : Prop :=
  ∀ k, k ≠ "region_tags" → elem' !! k = elem !! k.

(** The tags an element carries in its [region_tags] attribute. *)
Definition carried_tags (elem : element) : list string :=
  existing_tag_list (elem !! "region_tags").

Lemma last_filter_Some {A} (P : A → bool) l c :
  last (List.filter P l) = Some c ↔
  ∃ before after,
    l = before ++ c :: after ∧ P c = true
    ∧ Forall (λ x, P x = false) after.
Proof.
  split.
  - induction l as [|x l IH] using rev_ind; [done|].
    rewrite List.filter_app. simpl. destruct (P x) eqn:Hx.
    + rewrite last_snoc. intros [= <-]. exists l, []. by split_and!.
    + rewrite app_nil_r. intros (before & after & -> & Hc & Hafter)%IH.
      exists before, (after ++ [x]). split_and!; [|done|].
      * by rewrite <- app_assoc.
      * apply Forall_app. split; [done|]. by constructor.
  - intros (before & after & -> & Hc & Hafter).
    rewrite List.filter_app. simpl. rewrite Hc.
    assert (List.filter P after = []) as ->.
    { induction Hafter as [|x after Hx _ IH]; [done|]. simpl. by rewrite Hx. }
    by rewrite last_snoc.
Qed.

Lemma last_filter_None {A} (P : A → bool) l :
  last (List.filter P l) = None ↔ Forall (λ x, P x = false) l.
Proof.
  induction l as [|x l IH] using rev_ind; [done|].
  rewrite List.filter_app, Forall_app. simpl. destruct (P x) eqn:Hx.
  - rewrite last_snoc. split; [done|]. intros [_ Hl].
    apply Forall_cons in Hl as [Hl _]. congruence.
  - rewrite app_nil_r, IH. split; [|by intros [? _]].
    intros ?. split; [done|]. by constructor.
Qed.

Lemma mapM_result_is_ok {A B} (f : A → result B) xs :
  is_ok (mapM_result f xs) = true ↔ Forall (λ x, is_ok (f x) = true) xs.
Proof.
  induction xs as [|x xs IH]; simpl; [done|].
  rewrite Forall_cons, <- IH.
  destruct (f x); simpl; [|by split; [|intros [? _]]].
  destruct (mapM_result f xs); simpl; by split; [|intros [_ ?]].
Qed.

Lemma negb_startswith part :
  negb (PyStr.startswith part "Test") = false ↔
  PyStr.startswith part "Test" = true.
Proof. by destruct (PyStr.startswith part "Test"). Qed.

(** The outcomes of reading the test key of an element. *)
Lemma elem_test_key_cases (elem : element) :
  match elem_test_key elem with
  | Ok (c, n) =>
      ∃ classname before after,
        elem !! "classname" = Some classname ∧ elem !! "name" = Some n
        ∧ PyStr.split "." classname = before ++ c :: after
        ∧ PyStr.startswith c "Test" = false
        ∧ Forall (λ p, PyStr.startswith p "Test" = true) after
  | Raise e =>
      (e = KeyError
       ∧ (elem !! "classname" = None ∨ elem !! "name" = None))
      ∨ (e = IndexError
         ∧ ∃ classname,
             elem !! "classname" = Some classname
             ∧ Forall (λ p, PyStr.startswith p "Test" = true)
                      (PyStr.split "." classname))
  end.
Proof.
  unfold elem_test_key, getitem.
  destruct (elem !! "classname") as [classname|] eqn:Hclass; simpl;
    [|by left; split; [|left]].
  destruct (last _) as [c|] eqn:Hlast; simpl.
  - destruct (elem !! "name") as [n|] eqn:Hname; simpl;
      [|by left; split; [|right]].
    apply last_filter_Some in Hlast as (before & after & Hsplit & Hc & Hafter).
    exists classname, before, after. split_and!; [done..| |].
    + by destruct (PyStr.startswith c "Test").
    + eapply Forall_impl; [exact Hafter|].
      intros p. apply negb_startswith.
  - right. split; [done|]. exists classname. split; [done|].
    apply last_filter_None in Hlast.
    eapply Forall_impl; [exact Hlast|]. intros p. apply negb_startswith.
Qed.

Lemma elem_test_key_keyed (elem : element) :
  is_ok (elem_test_key elem) = true ↔ keyed elem.
Proof.
  pose proof (elem_test_key_cases elem) as Hcases. split.
  - destruct (elem_test_key elem) as [[c n]|e]; [intros _|done].
    destruct Hcases as (classname & before & after & ? & ? & Hsplit & ? & _).
    exists classname, n, c. split_and!; [done..| |done].
    rewrite Hsplit, elem_of_app, elem_of_cons. auto.
  - intros (classname & n & part & Hclass & Hname & Hpart & Htest).
    destruct (elem_test_key elem) as [[c n']|e]; [done|].
    destruct Hcases as [[_ [?|?]]|[_ (classname' & ? & Hall)]]; [congruence..|].
    assert (classname' = classname) as -> by congruence.
    eapply Forall_forall in Hall; [|exact Hpart]. congruence.
Qed.

Section facts.

Variable set_iter : gset string → list string.

(** Iterating over a set visits each of its elements once. *)
Hypothesis set_iter_elements : ∀ X : gset string, set_iter X ≡ₚ elements X.

Abbreviation step := (inject_method set_iter).

Abbreviation matched test_key :=
  (filter (λ m : Analyze.method, test_key ∈ method_test_keys m)).

Lemma step_frame test_key (elem : element) m :
  same_but_region_tags elem (step test_key elem m).
Proof.
  intros k Hk. unfold inject_method. case_bool_decide; [|done].
  by rewrite lookup_insert_ne.
Qed.

Lemma fold_frame test_key source_methods (elem : element) :
  same_but_region_tags elem (fold_left (step test_key) source_methods elem).
Proof.
  revert elem. induction source_methods as [|m ms IH]; intros elem k Hk;
    [done|].
  cbn [fold_left]. rewrite IH by done. by apply step_frame.
Qed.

Lemma fold_unmatched test_key source_methods (elem : element) :
  Forall (λ m, test_key ∉ method_test_keys m) source_methods →
  fold_left (step test_key) source_methods elem = elem.
Proof.
  intros Hall. induction Hall as [|m ms Hm _ IH]; [done|].
  cbn [fold_left]. unfold inject_method at 2.
  by rewrite bool_decide_eq_false_2.
Qed.

Lemma fold_none test_key source_methods (elem : element) :
  matched test_key source_methods = [] →
  fold_left (step test_key) source_methods elem = elem.
Proof.
  induction source_methods as [|m ms IH]; [done|].
  destruct (decide (test_key ∈ method_test_keys m)) as [Hkey|Hkey].
  - by rewrite filter_cons_True by done.
  - rewrite filter_cons_False by done. cbn [fold_left].
    assert (step test_key elem m = elem) as ->; [|done].
    unfold inject_method. by rewrite bool_decide_eq_false_2.
Qed.

(** The test key is read from attributes the injection leaves alone. *)
Lemma elem_test_key_frame (elem elem' : element) :
  same_but_region_tags elem elem' →
  elem_test_key elem' = elem_test_key elem.
Proof.
  intros Hframe. unfold elem_test_key, getitem.
  by rewrite !Hframe.
Qed.

(** Reading back the tags written for matched methods with tag names. *)
Lemma union_readback test_key source_methods (existing l : list string) :
  Forall (λ x, PyStr.has_chr "," x = false) existing →
  matched test_key source_methods ≠ [] →
  Forall (λ m, Analyze.region_tags m ≠ []
               ∧ Forall tag_name (Analyze.region_tags m))
         (matched test_key source_methods) →
  (∀ t, t ∈ l ↔ t ∈ existing
               ∨ ∃ m, m ∈ matched test_key source_methods
                      ∧ t ∈ Analyze.region_tags m) →
  existing_tag_list (Some (PyStr.join "," l)) = l.
Proof.
  intros Hexisting Hsome Hall Hl.
  destruct (matched test_key source_methods) as [|m0 ms] eqn:Hmatched;
    [done|].
  pose proof Hall as Hall0. apply Forall_cons in Hall0 as [[Hne Hnames] _].
  destruct (Analyze.region_tags m0) as [|t0 tags] eqn:Htags; [done|].
  apply Forall_cons in Hnames as [[Ht0 Hc0] _].
  apply (Inject.existing_tag_list_join l t0); [|done|].
  - apply Hl. right. exists m0. split; [apply list_elem_of_here|].
    rewrite Htags. apply list_elem_of_here.
  - apply Forall_forall. intros t [Ht|(m & Hm & Ht)]%Hl.
    + by eapply Forall_forall in Ht; [|exact Hexisting].
    + eapply Forall_forall in Hall as [_ Hnames]; [|exact Hm].
      by eapply Forall_forall in Hnames as [_ ?]; [|exact Ht].
Qed.

(** The test key of a [testcase] element is its [name] attribute with the
    last dot-separated part of its [classname] attribute that does not
    start with [Test]. *)
Theorem test_key_last_part (elem : element) c n :
  elem_test_key elem = Ok (c, n) ↔
  ∃ classname before after,
    elem !! "classname" = Some classname ∧ elem !! "name" = Some n
    ∧ PyStr.split "." classname = before ++ c :: after
    ∧ PyStr.startswith c "Test" = false
    ∧ Forall (λ p, PyStr.startswith p "Test" = true) after.
Proof.
  split.
  - intros Hkey. pose proof (elem_test_key_cases elem) as Hcases.
    by rewrite Hkey in Hcases.
  - intros (classname & before & after & Hclass & Hname & Hsplit & Hc & Hafter).
    unfold elem_test_key, getitem. rewrite Hclass, Hname. simpl.
    assert (last (List.filter (λ part, negb (PyStr.startswith part "Test"))
                    (PyStr.split "." classname)) = Some c) as ->; [|done].
    apply last_filter_Some. exists before, after. split_and!; [done| |].
    + by rewrite Hc.
    + eapply Forall_impl; [exact Hafter|]. intros p. apply negb_startswith.
Qed.

(** [inject_snippet_mapping] completes exactly when every [testcase]
    element has a [classname] with a part that does not start with [Test]
    and a [name].  Otherwise it raises for some element: a [KeyError] when
    one of the two attributes is missing, an [IndexError] when every part
    of the class name starts with [Test]. *)
Theorem inject_snippet_mapping_errors
    grep_tags source_tags ignored_tags source_methods testcases :
  (is_ok (inject_snippet_mapping set_iter
            (grep_tags, source_tags, ignored_tags, source_methods)
            testcases) = true
   ↔ Forall keyed testcases)
  ∧ ∀ e,
      inject_snippet_mapping set_iter
        (grep_tags, source_tags, ignored_tags, source_methods) testcases =
      Raise e →
      ∃ elem : element,
        elem ∈ testcases
        ∧ ((e = KeyError
            ∧ (elem !! "classname" = None ∨ elem !! "name" = None))
           ∨ (e = IndexError
              ∧ ∃ classname,
                  elem !! "classname" = Some classname
                  ∧ Forall (λ p, PyStr.startswith p "Test" = true)
                           (PyStr.split "." classname))).
Proof.
  unfold inject_snippet_mapping. split.
  - rewrite mapM_result_is_ok. apply Forall_iff. intros elem.
    rewrite <- elem_test_key_keyed. unfold inject_elem.
    by destruct (elem_test_key elem).
  - intros e (elem & Hin & Helem)%mapM_result_raise.
    exists elem. split; [done|].
    pose proof (elem_test_key_cases elem) as Hcases.
    unfold inject_elem in Helem.
    destruct (elem_test_key elem) as [[c n]|e']; [done|].
    simpl in Helem. by injection Helem as ->.
Qed.

(** The report [inject_snippet_mapping] writes has one element for each
    element of the report it read, in the same order, with the same
    attributes except [region_tags]; an element whose test key no method
    lists among its tests is written as it was read. *)
Theorem inject_keeps_other_attributes
    grep_tags source_tags ignored_tags source_methods testcases out :
  inject_snippet_mapping set_iter
    (grep_tags, source_tags, ignored_tags, source_methods) testcases =
  Ok out →
  Forall2 (λ elem elem' : element,
             same_but_region_tags elem elem'
             ∧ elem_test_key elem' = elem_test_key elem
             ∧ ∀ test_key,
                 elem_test_key elem = Ok test_key →
                 Forall (λ m, test_key ∉ method_test_keys m) source_methods →
                 elem' = elem)
          testcases out.
Proof.
  unfold inject_snippet_mapping. intros Hout%mapM_result_Forall2.
  eapply Forall2_impl; [exact Hout|]. intros elem elem' Helem. simpl in Helem.
  unfold inject_elem in Helem.
  destruct (elem_test_key elem) as [test_key|e] eqn:Hkey; [|done].
  simpl in Helem. injection Helem as <-.
  pose proof (fold_frame test_key source_methods elem) as Hframe.
  split_and!; [done| |].
  - rewrite <- Hkey. by apply elem_test_key_frame.
  - intros test_key' [= <-] Hnone. by apply fold_unmatched.
Qed.

(** Injecting into an element that was already injected, with the same
    methods, changes nothing but the order of the tags: when the matching
    methods carry tag names, the element written the second time has the
    attributes of the first result, and its [region_tags] attribute lists
    the same tags. *)
Theorem inject_twice source_methods (elem elem1 : element) test_key :
  elem_test_key elem = Ok test_key →
  Forall (λ m, Analyze.region_tags m ≠ []
               ∧ Forall tag_name (Analyze.region_tags m))
         (matched test_key source_methods) →
  inject_elem set_iter source_methods elem = Ok elem1 →
  ∃ elem2 : element,
    inject_elem set_iter source_methods elem1 = Ok elem2
    ∧ same_but_region_tags elem1 elem2
    ∧ carried_tags elem2 ≡ₚ carried_tags elem1.
Proof using Type*.
  intros Hkey Hall Helem1. unfold inject_elem in Helem1 |- *.
  rewrite Hkey in Helem1. simpl in Helem1. injection Helem1 as <-.
  rewrite (elem_test_key_frame elem) by apply fold_frame.
  rewrite Hkey. simpl. eexists. split; [done|].
  split; [apply fold_frame|]. unfold carried_tags.
  destruct (decide (matched test_key source_methods = [])) as [Hnone|Hsome].
  { by rewrite !(fold_none _ _ _ Hnone). }
  destruct (Inject.fold_matched set_iter set_iter_elements
              test_key source_methods elem Hall)
    as [[Hnone _]|(l1 & -> & Hnd1 & Hl1)]; [done|].
  assert (existing_tag_list (Some (PyStr.join "," l1)) = l1) as Hback1.
  { eapply union_readback; [|exact Hsome|exact Hall|exact Hl1].
    apply Inject.existing_tag_list_pieces. }
  destruct (Inject.fold_matched set_iter set_iter_elements test_key
              source_methods (<["region_tags" := PyStr.join "," l1]> elem)
              Hall)
    as [[Hnone _]|(l2 & -> & Hnd2 & Hl2)]; [done|].
  rewrite insert_insert_eq, !lookup_insert_eq.
  rewrite lookup_insert_eq, Hback1 in Hl2.
  assert (existing_tag_list (Some (PyStr.join "," l2)) = l2) as ->.
  { eapply union_readback; [|exact Hsome|exact Hall|exact Hl2].
    rewrite <- Hback1. apply Inject.existing_tag_list_pieces. }
  rewrite Hback1. apply NoDup_Permutation; [done..|].
  intros t. rewrite Hl2, Hl1. tauto.
Qed.

End facts.

(** *** The properties at a sample report *)

Abbreviation sample_methods := [Samples.index_method; Samples.sign_method].

Abbreviation sample_injected :=
  (fold_left (inject_method elements ("main_test", "test_index"))
             sample_methods Samples.testcase).

Lemma inject_keeps_other_attributes_witness :
  inject_snippet_mapping elements ([], [], [], sample_methods)
    [Samples.testcase] = Ok [sample_injected]
  ∧ Forall2 (λ elem elem' : element,
               same_but_region_tags elem elem'
               ∧ elem_test_key elem' = elem_test_key elem
               ∧ ∀ test_key,
                   elem_test_key elem = Ok test_key →
                   Forall (λ m, test_key ∉ method_test_keys m)
                          sample_methods →
                   elem' = elem)
            [Samples.testcase] [sample_injected].
Proof.
  assert (elem_test_key Samples.testcase = Ok ("main_test", "test_index"))
    as Hkey by (vm_compute; reflexivity).
  assert (inject_snippet_mapping elements ([], [], [], sample_methods)
            [Samples.testcase] = Ok [sample_injected]) as Hout.
  { unfold inject_snippet_mapping, mapM_result, inject_elem.
    rewrite Hkey. reflexivity. }
  split; [exact Hout|].
  exact (inject_keeps_other_attributes elements [] [] [] sample_methods
           [Samples.testcase] [sample_injected] Hout).
Defined.

Lemma inject_twice_witness :
  ∃ elem2 : element,
    inject_elem elements sample_methods sample_injected = Ok elem2
    ∧ same_but_region_tags sample_injected elem2
    ∧ carried_tags elem2 ≡ₚ carried_tags sample_injected.
Proof.
  assert (elem_test_key Samples.testcase = Ok ("main_test", "test_index"))
    as Hkey by (vm_compute; reflexivity).
  assert (filter (λ m : Analyze.method,
                    ("main_test", "test_index") ∈ method_test_keys m)
                 sample_methods = sample_methods) as Hmatched
    by (vm_compute; reflexivity).
  apply (inject_twice elements (λ X, reflexivity (elements X))
           sample_methods Samples.testcase sample_injected
           ("main_test", "test_index")).
  - exact Hkey.
  - rewrite Hmatched.
    repeat (constructor; [split; [discriminate|]|]);
      repeat constructor; discriminate.
  - unfold inject_elem. rewrite Hkey. reflexivity.
Defined.

End InjectEdges.
